(** * MarketplaceAPI: the catalog service of [main.py]

    A shallow embedding of the FastAPI application of [main.py]: the three
    tables of the SQLAlchemy model ([items], [categories] and the join
    table [item_category]), the request-scoped session with its commit,
    the Pydantic schemas and the eight route handlers, followed by the
    properties of the handlers.

    - A table with an integer primary key is a finite map from the key to
      the remaining columns ([gmap Z _]); the join table has no key and no
      uniqueness constraint and is a list of pairs.
    - A Python [float] is a binary64 number ([PrimFloat.float]), compared
      with the IEEE comparison.
    - A handler runs in a session that holds the committed database and the
      working copy the ORM objects of the request live in; [db.commit()]
      publishes the working copy, and a handler that raises leaves the
      committed database as it was ([get_db] closes the session). *)

From Stdlib Require Import ZArith Floats.PrimFloat.
From stdpp Require Import base option list strings gmap fin_maps.

Local Open Scope string_scope.
Local Open Scope list_scope.
Local Open Scope Z_scope.

(** ** The persistence model *)

(** [class Item(Base)]: the columns of [items] other than the primary key
    [id], which is the key of the table. *)
Module Item.
Record t : Type := Build
  { name : string;
    description : option string;
    price : float }.

Definition set_name (v : string) (it : t) : t :=
  {| name := v; description := description it; price := price it |}.
Definition set_description (v : option string) (it : t) : t :=
  {| name := name it; description := v; price := price it |}.
Definition set_price (v : float) (it : t) : t :=
  {| name := name it; description := description it; price := v |}.
End Item.

(** [class Category(Base)]: the columns of [categories] other than [id]. *)
Module Category.
Record t : Type := Build
  { name : string }.

Definition set_name (v : string) (c : t) : t := {| name := v |}.
End Category.

(** The database: [items], [categories] and [item_category_association],
    whose rows are pairs [(item_id, category_id)]. The primary keys are
    unique by the type of the tables. The [unique=True] of [Category.name]
    is not built in: it is [unique_category_names] below, which the checks
    of the handlers alone are shown to maintain. *)
Record DB : Type := mkDB
  { items : gmap Z Item.t;
    categories : gmap Z Category.t;
    item_category : list (Z * Z) }.

Definition empty_db : DB :=
  {| items := ∅; categories := ∅; item_category := [] |}.

Definition set_items (f : gmap Z Item.t → gmap Z Item.t) (db : DB) : DB :=
  {| items := f (items db);
     categories := categories db;
     item_category := item_category db |}.

Definition set_categories (f : gmap Z Category.t → gmap Z Category.t) (db : DB) : DB :=
  {| items := items db;
     categories := f (categories db);
     item_category := item_category db |}.

Definition set_item_category (f : list (Z * Z) → list (Z * Z)) (db : DB) : DB :=
  {| items := items db;
     categories := categories db;
     item_category := f (item_category db) |}.

(** The engine assigns the primary key of an inserted row; it is an unused
    key, here one past the largest key in use (1 for an empty table). *)
Definition max_key (ks : list Z) : Z := foldr Z.max 0 ks.

Definition new_id {A} (tbl : gmap Z A) : Z :=
  max_key (map_to_list tbl).*1 + 1.

(** ** Sessions and handlers *)

Inductive result (A : Type) : Type :=
  | Ok (a : A)
  | HTTPException (status_code : Z).
Arguments Ok {A} a.
Arguments HTTPException {A} status_code.

Record Session : Type := mkSession
  { committed : DB;
    working : DB }.

Definition Handler (A : Type) : Type := Session → Session * result A.

Definition ret {A} (a : A) : Handler A := λ s, (s, Ok a).

Definition bind {A B} (m : Handler A) (k : A → Handler B) : Handler B :=
  λ s, match m s with
       | (s', Ok a) => k a s'
       | (s', HTTPException c) => (s', HTTPException c)
       end.

Notation "'do' x <- m ; k" := (bind m (λ x, k))
  (at level 10, x name, m at level 100, k at level 200,
   format "'[v' 'do'  x  <-  m ; '/' k ']'").
Notation "'exec' m ; k" := (bind m (λ _, k))
  (at level 10, m at level 100, k at level 200,
   format "'[v' 'exec'  m ; '/' k ']'").

(** [raise HTTPException(status_code=c)] *)
Definition raise {A} (c : Z) : Handler A := λ s, (s, HTTPException c).

(** A read through [db.query]. *)
Definition query {A} (f : DB → A) : Handler A := λ s, (s, Ok (f (working s))).

(** A change to the objects of the session, written at the next commit. *)
Definition modify (f : DB → DB) : Handler unit :=
  λ s, ({| committed := committed s; working := f (working s) |}, Ok tt).

(** [db.commit()] *)
Definition commit : Handler unit :=
  λ s, ({| committed := working s; working := working s |}, Ok tt).

(** One request: [get_db] opens a session on the database, the handler runs,
    and the session is closed; what was not committed is dropped. *)
Definition run {A} (h : Handler A) (db : DB) : DB * result A :=
  let '(s, r) := h {| committed := db; working := db |} in (committed s, r).

(** ** The Pydantic schemas *)

(** [ItemBase] and [ItemCreate]: [name: str], [description: Optional[str] =
    None], [price: float]. *)
Module ItemCreate.
Record t : Type := Build
  { name : string;
    description : option string;
    price : float }.
End ItemCreate.

(** [Item(name=item.name, description=item.description, price=item.price)] *)
Definition item_row (item : ItemCreate.t) : Item.t :=
  {| Item.name := ItemCreate.name item;
     Item.description := ItemCreate.description item;
     Item.price := ItemCreate.price item |}.

(** [CategoryBase] and [CategoryCreate]: [name: str]. *)
Module CategoryCreate.
Record t : Type := Build
  { name : string }.
End CategoryCreate.

Module ItemResponse.
Record t : Type := Build
  { id : Z;
    name : string;
    description : option string;
    price : float;
    categories : list string }.
End ItemResponse.

Module CategoryResponse.
Record t : Type := Build
  { id : Z;
    name : string;
    items : list ItemResponse.t }.
End CategoryResponse.

(** A field of a JSON request body, before validation. *)
Inductive field (A : Type) : Type :=
  | Missing
  | Null
  | Value (a : A).
Arguments Missing {A}.
Arguments Null {A}.
Arguments Value {A} a.

(** The body of [POST /items/] and [PUT /items/{item_id}] as it arrives. *)
Module ItemBody.
Record t : Type := Build
  { name : field string;
    description : field string;
    price : field float }.
End ItemBody.

(** Validation of a body against [ItemCreate]: [name] and [price] are
    required and not nullable, [description] is optional and nullable; no
    field carries a constraint on its value. A failure is the 422 of
    FastAPI. *)
Definition validate_ItemCreate (body : ItemBody.t) : result ItemCreate.t :=
  match ItemBody.name body, ItemBody.price body with
  | Value n, Value p =>
      Ok {| ItemCreate.name := n;
            ItemCreate.description :=
              match ItemBody.description body with
              | Value d => Some d
              | _ => None
              end;
            ItemCreate.price := p |}
  | _, _ => HTTPException 422
  end.

(** ** Relationships and query primitives *)

(** [item.categories]: the categories joined to the item through the join
    table. *)
Definition categories_of (db : DB) (item_id : Z) : list (Z * Category.t) :=
  omap (λ '(i, c), if bool_decide (i = item_id)
                   then (λ cat, (c, cat)) <$> categories db !! c
                   else None)
       (item_category db).

(** [category.items]: the items joined to the category. *)
Definition items_of (db : DB) (category_id : Z) : list (Z * Item.t) :=
  omap (λ '(i, c), if bool_decide (c = category_id)
                   then (λ it, (i, it)) <$> items db !! i
                   else None)
       (item_category db).

(** [ItemResponse(id=.., name=.., description=.., price=..,
    categories=[category.name for category in item.categories])] *)
Definition item_response (db : DB) (item_id : Z) (it : Item.t) : ItemResponse.t :=
  {| ItemResponse.id := item_id;
     ItemResponse.name := Item.name it;
     ItemResponse.description := Item.description it;
     ItemResponse.price := Item.price it;
     ItemResponse.categories := (Category.name ∘ snd) <$> categories_of db item_id |}.

Definition category_response (db : DB) (category_id : Z) (c : Category.t)
  : CategoryResponse.t :=
  {| CategoryResponse.id := category_id;
     CategoryResponse.name := Category.name c;
     CategoryResponse.items :=
       (λ '(i, it), item_response db i it) <$> items_of db category_id |}.

(** [db.query(Item).get(item_id)] and [db.query(Category).get(category_id)] *)
Definition get_item (item_id : Z) : Handler (option Item.t) :=
  query (λ db, items db !! item_id).

Definition get_category (category_id : Z) : Handler (option Category.t) :=
  query (λ db, categories db !! category_id).

(** [db.refresh(obj)]: the row is read again; a row that is gone is an
    error of the ORM, a 500 for the client. *)
Definition refresh_item (item_id : Z) : Handler Item.t :=
  do row <- get_item item_id;
  match row with
  | Some it => ret it
  | None => raise 500
  end.

Definition refresh_category (category_id : Z) : Handler Category.t :=
  do row <- get_category category_id;
  match row with
  | Some c => ret c
  | None => raise 500
  end.

(** [db.add(obj)] for a new row: the row is inserted under a new key. *)
Definition add_item (it : Item.t) : Handler Z :=
  do id <- query (λ db, new_id (items db));
  exec modify (set_items <[id := it]>);
  ret id.

Definition add_category (c : Category.t) : Handler Z :=
  do id <- query (λ db, new_id (categories db));
  exec modify (set_categories <[id := c]>);
  ret id.

(** [db.query(Category).filter(Category.name == name).first()] *)
Definition first_category_named (db : DB) (name : string) : option (Z * Category.t) :=
  List.find (λ '(_, c), bool_decide (Category.name c = name))
            (map_to_list (categories db)).

(** [db.query(Item).filter(Item.id.in_(item_ids)).all()] *)
Definition items_with_id_in (db : DB) (item_ids : list Z) : list (Z * Item.t) :=
  filter (λ '(i, _), i ∈ item_ids) (map_to_list (items db)).

(** [db_category.items = items]: at the flush the rows of the members that
    left the collection are deleted from the join table and a row is
    inserted for every member that entered it. *)
Definition replace_items_of (category_id : Z) (new : list Z) (db : DB) : DB :=
  let old := (items_of db category_id).*1 in
  let removed := filter (λ i, i ∉ new) old in
  let added := filter (λ i, i ∉ old) new in
  set_item_category
    (λ rows, filter (λ '(i, c), ¬ (c = category_id ∧ i ∈ removed)) rows
             ++ ((λ i, (i, category_id)) <$> added))
    db.

(** The rows of [query.join(Item.categories)]: one row for every pair of a
    row of the query and a category joined to its item. *)
Definition join_categories (db : DB) (q : list (Z * Item.t))
  : list ((Z * Item.t) * Category.t) :=
  row ← q; (λ '(_, cat), (row, cat)) <$> categories_of db row.1.

(** A query for entities returns each entity once, however many rows of the
    result carry it. *)
Fixpoint unique_entities {A} (rows : list (Z * A)) : list (Z * A) :=
  match rows with
  | [] => []
  | row :: rows' => row :: filter (λ r, r.1 ≠ row.1) (unique_entities rows')
  end.

(** [and_(Item.price >= min_price, Item.price <= max_price)] *)
Definition price_between (min_price max_price : float) (it : Item.t) : bool :=
  PrimFloat.leb min_price (Item.price it) && PrimFloat.leb (Item.price it) max_price.

(** Python's truth value of an [Optional[List[str]]]. *)
Definition truthy {A} (l : option (list A)) : bool :=
  match l with
  | Some (_ :: _) => true
  | _ => false
  end.

(** ** Route handlers *)

(** [POST /items/] *)
Definition create_item (item : ItemCreate.t) : Handler ItemResponse.t :=
  do id <- add_item (item_row item);
  exec commit;
  do db_item <- refresh_item id;
  query (λ db, item_response db id db_item).

(** [PUT /items/{item_id}] *)
Definition update_item (item_id : Z) (item : ItemCreate.t) : Handler ItemResponse.t :=
  do db_item <- get_item item_id;
  match db_item with
  | None => raise 404
  | Some _ =>
      exec modify (set_items (alter (Item.set_name (ItemCreate.name item)) item_id));
      exec modify (set_items
                     (alter (Item.set_description (ItemCreate.description item)) item_id));
      exec modify (set_items (alter (Item.set_price (ItemCreate.price item)) item_id));
      exec commit;
      do db_item <- refresh_item item_id;
      query (λ db, item_response db item_id db_item)
  end.

(** [DELETE /items/{item_id}]: deleting the item also deletes its rows of the
    join table. *)
Definition delete_item (item_id : Z) : Handler string :=
  do db_item <- get_item item_id;
  match db_item with
  | None => raise 404
  | Some _ =>
      exec modify (λ db, set_item_category (filter (λ '(i, _), i ≠ item_id))
                           (set_items (delete item_id) db));
      exec commit;
      ret "Товар удален"
  end.

(** [POST /categories/] *)
Definition create_category (category : CategoryCreate.t)
  : Handler CategoryResponse.t :=
  do existing_category <-
     query (λ db, first_category_named db (CategoryCreate.name category));
  match existing_category with
  | Some _ => raise 400
  | None =>
      do id <- add_category {| Category.name := CategoryCreate.name category |};
      exec commit;
      do db_category <- refresh_category id;
      query (λ db, category_response db id db_category)
  end.

(** [GET /categories/] *)
Definition get_categories : Handler (list CategoryResponse.t) :=
  query (λ db, (λ '(id, c), category_response db id c) <$> map_to_list (categories db)).

(** [POST /categories/{category_id}/items/{item_id}] *)
Definition add_item_to_category (category_id item_id : Z) : Handler ItemResponse.t :=
  do category <- get_category category_id;
  do item <- get_item item_id;
  match category with
  | None => raise 404
  | Some _ =>
      match item with
      | None => raise 404
      | Some item =>
          do members <- query (λ db, items_of db category_id);
          exec (if bool_decide (item_id ∉ members.*1)
                then exec modify (set_item_category
                                    (λ rows, rows ++ [(item_id, category_id)]));
                     commit
                else ret tt);
          query (λ db, item_response db item_id item)
      end
  end.

(** [PUT /categories/{category_id}] *)
Definition update_category (category_id : Z) (category : CategoryCreate.t)
    (item_ids : option (list Z)) : Handler CategoryResponse.t :=
  do db_category <- get_category category_id;
  match db_category with
  | None => raise 404
  | Some _ =>
      do existing_category <-
         query (λ db, first_category_named db (CategoryCreate.name category));
      exec (match existing_category with
            | Some (id, _) => if bool_decide (id ≠ category_id) then raise 400 else ret tt
            | None => ret tt
            end);
      exec modify (set_categories
                     (alter (Category.set_name (CategoryCreate.name category)) category_id));
      exec (match item_ids with
            | Some item_ids =>
                do items <- query (λ db, items_with_id_in db item_ids);
                if bool_decide (length items ≠ length item_ids)
                then raise 404
                else modify (replace_items_of category_id items.*1)
            | None => ret tt
            end);
      exec commit;
      do db_category <- refresh_category category_id;
      query (λ db, category_response db category_id db_category)
  end.

(** The query of [filter_items] and its [query.all()]. *)
Definition filter_query (categories : option (list string))
    (min_price max_price : float) (db : DB) : list (Z * Item.t) :=
  let q := map_to_list (items db) in
  let q := if truthy categories
           then fst <$> filter (λ '(_, cat), Category.name cat ∈ default [] categories)
                               (join_categories db q)
           else q in
  let q := filter (λ '(_, it), price_between min_price max_price it = true) q in
  unique_entities q.

(** [GET /items]; an omitted [min_price] is 0 and an omitted [max_price] is
    [float('inf')]. *)
Definition filter_items (categories : option (list string))
    (min_price max_price : option float) : Handler (list ItemResponse.t) :=
  let min_price := default 0%float min_price in
  let max_price := default infinity max_price in
  do items <- query (filter_query categories min_price max_price);
  match items with
  | [] => raise 404
  | _ => query (λ db, (λ '(i, it), item_response db i it) <$> items)
  end.

(** ** The application *)

Inductive request : Type :=
  | POST_items (body : ItemBody.t)
  | PUT_items (item_id : Z) (body : ItemBody.t)
  | DELETE_items (item_id : Z)
  | POST_categories (category : CategoryCreate.t)
  | GET_categories
  | POST_categories_items (category_id item_id : Z)
  | PUT_categories (category_id : Z) (category : CategoryCreate.t)
      (item_ids : option (list Z))
  | GET_items (categories : option (list string)) (min_price max_price : option float).

Inductive response : Type :=
  | ItemR (r : ItemResponse.t)
  | ItemsR (rs : list ItemResponse.t)
  | CategoryR (r : CategoryResponse.t)
  | CategoriesR (rs : list CategoryResponse.t)
  | MessageR (message : string).

(** A route whose body is validated before the handler is entered. *)
Definition with_item_body {A} (body : ItemBody.t) (h : ItemCreate.t → Handler A)
  : Handler A :=
  match validate_ItemCreate body with
  | Ok item => h item
  | HTTPException c => raise c
  end.

Definition route (req : request) : Handler response :=
  match req with
  | POST_items body =>
      do r <- with_item_body body create_item; ret (ItemR r)
  | PUT_items item_id body =>
      do r <- with_item_body body (update_item item_id); ret (ItemR r)
  | DELETE_items item_id =>
      do m <- delete_item item_id; ret (MessageR m)
  | POST_categories category =>
      do r <- create_category category; ret (CategoryR r)
  | GET_categories =>
      do rs <- get_categories; ret (CategoriesR rs)
  | POST_categories_items category_id item_id =>
      do r <- add_item_to_category category_id item_id; ret (ItemR r)
  | PUT_categories category_id category item_ids =>
      do r <- update_category category_id category item_ids; ret (CategoryR r)
  | GET_items categories min_price max_price =>
      do rs <- filter_items categories min_price max_price; ret (ItemsR rs)
  end.

Definition serve (req : request) (db : DB) : DB * result response :=
  run (route req) db.

(** The states of the database the application can reach from the empty
    schema that [Base.metadata.create_all] creates. *)
Inductive reachable : DB → Prop :=
  | reachable_empty : reachable empty_db
  | reachable_serve req db : reachable db → reachable (serve req db).1.

(** The [unique=True] of [Category.name]: no two categories share a name. *)
Definition unique_category_names (db : DB) : Prop :=
  ∀ k1 k2 c1 c2,
    categories db !! k1 = Some c1 → categories db !! k2 = Some c2 →
    Category.name c1 = Category.name c2 → k1 = k2.

(** ** Notions used in the statements *)

(** What [add_item_to_category] leaves in the database. *)
Definition with_member (category_id item_id : Z) (db : DB) : DB :=
  if bool_decide (item_id ∉ (items_of db category_id).*1)
  then set_item_category (λ rows, rows ++ [(item_id, category_id)]) db
  else db.

(** The database after [db_category.name = category.name]. *)
Definition renamed (category_id : Z) (name : string) (db : DB) : DB :=
  set_categories (alter (Category.set_name name) category_id) db.

(** The outcome of the name check of [update_category]. *)
Definition name_taken (db : DB) (category_id : Z) (name : string) : bool :=
  match first_category_named db name with
  | Some (id, _) => bool_decide (id ≠ category_id)
  | None => false
  end.

Definition pen : Item.t :=
  {| Item.name := "Pen"; Item.description := None; Item.price := 1.5%float |}.

Definition db_office : DB :=
  {| items := {[ 1 := pen ]};
     categories := {[ 1 := {| Category.name := "Office" |} ]};
     item_category := [] |}.

Definition db_two_categories : DB :=
  {| items := {[ 1 := pen ]};
     categories := {[ 1 := {| Category.name := "Office" |};
                      2 := {| Category.name := "Books" |} ]};
     item_category := [] |}.

(** The pen is in both categories. *)
Definition db_shelved : DB :=
  {| items := {[ 1 := pen ]};
     categories := {[ 1 := {| Category.name := "Office" |};
                      2 := {| Category.name := "Books" |} ]};
     item_category := [(1, 1); (1, 2)] |}.

(** The item belongs to a category with one of the names. *)
Definition in_named_category (db : DB) (item_id : Z) (names : list string) : Prop :=
  ∃ k c, (item_id, k) ∈ item_category db
         ∧ categories db !! k = Some c
         ∧ Category.name c ∈ names.

(** The stored item lies in the closed price interval of the request and,
    when the request lists category names, in a category that has one of
    them. *)
Definition matches (db : DB) (categories : option (list string))
    (min_price max_price : option float) (item_id : Z) (it : Item.t) : Prop :=
  items db !! item_id = Some it
  ∧ PrimFloat.leb (default 0%float min_price) (Item.price it) = true
  ∧ PrimFloat.leb (Item.price it) (default infinity max_price) = true
  ∧ (∀ names, categories = Some names → names ≠ [] →
       in_named_category db item_id names).

(** The foreign keys of [item_category_association]: every row of the join
    table names an item and a category that exist. *)
Definition referential_integrity (db : DB) : Prop :=
  ∀ i k, (i, k) ∈ item_category db →
         is_Some (items db !! i) ∧ is_Some (categories db !! k).

(** The changes a request can commit, one constructor for each commit of a
    handler. *)
Inductive change (db : DB) : DB → Prop :=
  | change_none : change db db
  | change_create_item item :
      change db (set_items <[new_id (items db) := item_row item]> db)
  | change_update_item item_id item it :
      items db !! item_id = Some it →
      change db (set_items <[item_id := item_row item]> db)
  | change_delete_item item_id it :
      items db !! item_id = Some it →
      change db (set_item_category (filter (λ '(i, _), i ≠ item_id))
                   (set_items (delete item_id) db))
  | change_create_category name :
      first_category_named db name = None →
      change db (set_categories
                   <[new_id (categories db) := {| Category.name := name |}]> db)
  | change_add_item_to_category category_id item_id c it :
      categories db !! category_id = Some c →
      items db !! item_id = Some it →
      change db (with_member category_id item_id db)
  | change_rename category_id name c :
      categories db !! category_id = Some c →
      name_taken db category_id name = false →
      change db (renamed category_id name db)
  | change_replace_items category_id name c item_ids :
      categories db !! category_id = Some c →
      name_taken db category_id name = false →
      length (items_with_id_in db item_ids) = length item_ids →
      change db (replace_items_of category_id (items_with_id_in db item_ids).*1
                   (renamed category_id name db)).

(** ** Properties *)

(** Unfolds a handler down to the session it returns. *)
Ltac run_handler :=
  repeat (progress
    (unfold run, bind, ret, raise, query, modify, commit,
       get_item, get_category, refresh_item, refresh_category, add_item, add_category;
     simpl)).

(** *** Queries and relationships *)

Lemma first_category_named_Some db n k c :
  first_category_named db n = Some (k, c) →
  categories db !! k = Some c ∧ Category.name c = n.
Proof.
  unfold first_category_named. intros H.
  apply find_some in H as [Hin Hn].
  apply list_elem_of_In, elem_of_map_to_list in Hin.
  by apply bool_decide_eq_true in Hn.
Qed.

Lemma first_category_named_None db n k c :
  first_category_named db n = None →
  categories db !! k = Some c → Category.name c ≠ n.
Proof.
  unfold first_category_named. intros H Hk Hn.
  apply elem_of_map_to_list, list_elem_of_In in Hk.
  apply (find_none _ _ H) in Hk. simpl in Hk.
  by apply bool_decide_eq_false in Hk.
Qed.

Lemma first_category_named_is_Some db n k c :
  categories db !! k = Some c → Category.name c = n →
  is_Some (first_category_named db n).
Proof.
  intros Hk Hn. destruct (first_category_named db n) eqn:E; [by eexists|].
  by destruct (first_category_named_None _ _ _ _ E Hk).
Qed.

Lemma elem_of_items_of db category_id i it :
  (i, it) ∈ items_of db category_id
  ↔ (i, category_id) ∈ item_category db ∧ items db !! i = Some it.
Proof.
  unfold items_of. rewrite list_elem_of_omap. split.
  - intros [[i' c] [Hin Hrow]]. case_bool_decide; [|done]. subst c.
    destruct (items db !! i') as [it'|] eqn:E; simplify_eq/=. done.
  - intros [Hin Hit]. exists (i, category_id). split; [done|].
    rewrite bool_decide_eq_true_2 by done. by rewrite Hit.
Qed.

Lemma elem_of_items_of_ids db category_id i :
  i ∈ (items_of db category_id).*1
  ↔ (i, category_id) ∈ item_category db ∧ is_Some (items db !! i).
Proof.
  rewrite list_elem_of_fmap. split.
  - intros [[i' it] [-> Hin]]. apply elem_of_items_of in Hin as [??]. eauto.
  - intros [Hin [it Hit]]. exists (i, it). split; [done|]. by apply elem_of_items_of.
Qed.

Lemma elem_of_categories_of db item_id k c :
  (k, c) ∈ categories_of db item_id
  ↔ (item_id, k) ∈ item_category db ∧ categories db !! k = Some c.
Proof.
  unfold categories_of. rewrite list_elem_of_omap. split.
  - intros [[i k'] [Hin Hrow]]. case_bool_decide; [|done]. subst i.
    destruct (categories db !! k') as [c'|] eqn:E; simplify_eq/=. done.
  - intros [Hin Hc]. exists (item_id, k). split; [done|].
    rewrite bool_decide_eq_true_2 by done. by rewrite Hc.
Qed.

Lemma category_response_ids db category_id c :
  ItemResponse.id <$> CategoryResponse.items (category_response db category_id c)
  = (items_of db category_id).*1.
Proof.
  simpl. rewrite <-list_fmap_compose. apply list_fmap_ext. by intros ? [??] _.
Qed.

Lemma new_id_fresh {A} (tbl : gmap Z A) : tbl !! new_id tbl = None.
Proof.
  assert (∀ ks k, k ∈ ks → k ≤ max_key ks) as Hmax.
  { induction ks as [|k' ks IH]; intros k Hk; [by apply elem_of_nil in Hk|].
    apply elem_of_cons in Hk as [->|Hk]; simpl; [lia|]. specialize (IH _ Hk). lia. }
  destruct (tbl !! new_id tbl) as [a|] eqn:E; [exfalso|done].
  apply elem_of_map_to_list in E.
  apply (list_elem_of_fmap_2 fst) in E. apply Hmax in E. unfold new_id in E.
  simpl in E. lia.
Qed.

Lemma items_with_id_in_elem db item_ids i it :
  (i, it) ∈ items_with_id_in db item_ids ↔ i ∈ item_ids ∧ items db !! i = Some it.
Proof.
  unfold items_with_id_in. rewrite list_elem_of_filter, elem_of_map_to_list. done.
Qed.

Lemma items_with_id_in_ids db item_ids i :
  i ∈ (items_with_id_in db item_ids).*1 ↔ i ∈ item_ids ∧ is_Some (items db !! i).
Proof.
  rewrite list_elem_of_fmap. split.
  - intros [[i' it] [-> Hin]]. apply items_with_id_in_elem in Hin as [??]. eauto.
  - intros [Hin [it Hit]]. exists (i, it). split; [done|].
    by apply items_with_id_in_elem.
Qed.

Lemma items_with_id_in_NoDup db item_ids : NoDup (items_with_id_in db item_ids).*1.
Proof.
  apply (sublist_NoDup _ (map_to_list (items db)).*1);
    [apply NoDup_fst_map_to_list|].
  apply fmap_sublist, sublist_filter.
Qed.

Lemma items_with_id_in_submseteq db item_ids :
  (items_with_id_in db item_ids).*1 ⊆+ item_ids.
Proof.
  apply NoDup_submseteq; [apply items_with_id_in_NoDup|].
  intros i Hi. by apply items_with_id_in_ids in Hi as [? _].
Qed.

(** The length test of [update_category] passes exactly when the ids are
    pairwise different and each of them is the id of an item. *)
Lemma items_with_id_in_length db item_ids :
  length (items_with_id_in db item_ids) = length item_ids
  ↔ NoDup item_ids ∧ ∀ i, i ∈ item_ids → is_Some (items db !! i).
Proof.
  rewrite <-(length_fmap fst (items_with_id_in db item_ids)).
  pose proof (items_with_id_in_submseteq db item_ids) as Hsub. split.
  - intros Hlen.
    assert ((items_with_id_in db item_ids).*1 ≡ₚ item_ids) as Hperm.
    { apply submseteq_length_Permutation; [done|]. by rewrite Hlen. }
    split.
    + rewrite <-Hperm. apply items_with_id_in_NoDup.
    + intros i Hi. rewrite <-Hperm in Hi. by apply items_with_id_in_ids in Hi as [_ ?].
  - intros [Hnd Hall]. apply Nat.le_antisymm; [by apply submseteq_length|].
    apply submseteq_length, NoDup_submseteq; [done|].
    intros i Hi. apply items_with_id_in_ids. auto.
Qed.

Lemma replace_items_of_elem db category_id new i :
  (∀ j, j ∈ new → is_Some (items db !! j)) →
  i ∈ (items_of (replace_items_of category_id new db) category_id).*1 ↔ i ∈ new.
Proof.
  intros Hnew. rewrite elem_of_items_of_ids. unfold replace_items_of. simpl.
  rewrite elem_of_app, list_elem_of_filter, list_elem_of_fmap. split.
  - intros [[[Hkeep Hin]|(j & [= ->] & Hj)] Hit].
    + destruct (decide (i ∈ new)) as [|Hni]; [done|]. destruct Hkeep.
      split; [done|]. apply list_elem_of_filter. split; [done|].
      by apply elem_of_items_of_ids.
    + by apply list_elem_of_filter in Hj as [_ ?].
  - intros Hi. split; [|by apply Hnew].
    destruct (decide (i ∈ (items_of db category_id).*1)) as [Hold|Hold].
    + left. split; [|by apply elem_of_items_of_ids in Hold as [? _]].
      intros [_ Hrem]. by apply list_elem_of_filter in Hrem as [? _].
    + right. exists i. split; [done|]. by apply list_elem_of_filter.
Qed.

(** *** What each handler computes *)

Lemma run_bind_ret {A B} (h : Handler A) (f : A → B) db :
  (run (do r <- h; ret (f r)) db).1 = (run h db).1.
Proof. unfold run, bind, ret. by destruct (h _) as [s [a|c]]. Qed.

Lemma create_item_run db item :
  let id := new_id (items db) in
  let db' := set_items <[id := item_row item]> db in
  run (create_item item) db = (db', Ok (item_response db' id (item_row item))).
Proof. unfold create_item. run_handler. by rewrite lookup_insert_eq. Qed.

Lemma update_item_missing db item_id item :
  items db !! item_id = None →
  run (update_item item_id item) db = (db, HTTPException 404).
Proof. intros Hnone. unfold update_item. run_handler. by rewrite Hnone. Qed.

Lemma update_item_found db item_id item it :
  items db !! item_id = Some it →
  run (update_item item_id item) db
  = (set_items <[item_id := item_row item]> db,
     Ok (item_response (set_items <[item_id := item_row item]> db) item_id
           (item_row item))).
Proof.
  intros Hit. unfold update_item. run_handler. rewrite Hit. simpl.
  unfold set_items; simpl.
  assert (alter (Item.set_price (ItemCreate.price item)) item_id
            (alter (Item.set_description (ItemCreate.description item)) item_id
               (alter (Item.set_name (ItemCreate.name item)) item_id (items db)))
          = <[item_id := item_row item]> (items db)) as ->.
  { apply map_eq. intros j. destruct (decide (item_id = j)) as [->|Hne].
    - rewrite !lookup_alter_eq, Hit, lookup_insert_eq. done.
    - rewrite !lookup_alter_ne, lookup_insert_ne by done. done. }
  run_handler. rewrite lookup_insert_eq. done.
Qed.

Lemma delete_item_run db item_id :
  run (delete_item item_id) db
  = match items db !! item_id with
    | Some _ => (set_item_category (filter (λ '(i, _), i ≠ item_id))
                   (set_items (delete item_id) db),
                 Ok "Товар удален")
    | None => (db, HTTPException 404)
    end.
Proof. unfold delete_item. run_handler. by destruct (items db !! item_id). Qed.

Lemma create_category_fresh db category :
  first_category_named db (CategoryCreate.name category) = None →
  let id := new_id (categories db) in
  let c := {| Category.name := CategoryCreate.name category |} in
  let db' := set_categories <[id := c]> db in
  run (create_category category) db = (db', Ok (category_response db' id c)).
Proof.
  intros Hnone. unfold create_category. run_handler. rewrite Hnone.
  run_handler. by rewrite lookup_insert_eq.
Qed.

Lemma create_category_taken db category x :
  first_category_named db (CategoryCreate.name category) = Some x →
  run (create_category category) db = (db, HTTPException 400).
Proof. intros Hx. unfold create_category. run_handler. by rewrite Hx. Qed.

Lemma get_categories_pure db : (run get_categories db).1 = db.
Proof. done. Qed.

Lemma add_item_to_category_not_found db category_id item_id :
  categories db !! category_id = None ∨ items db !! item_id = None →
  run (add_item_to_category category_id item_id) db = (db, HTTPException 404).
Proof.
  intros H. unfold add_item_to_category. run_handler.
  destruct (categories db !! category_id), (items db !! item_id), H; done.
Qed.

Lemma add_item_to_category_found db category_id item_id c it :
  categories db !! category_id = Some c → items db !! item_id = Some it →
  run (add_item_to_category category_id item_id) db
  = (with_member category_id item_id db,
     Ok (item_response (with_member category_id item_id db) item_id it)).
Proof.
  intros Hc Hit. unfold add_item_to_category, with_member. run_handler.
  rewrite Hc, Hit. run_handler.
  by case_bool_decide.
Qed.

Lemma update_category_not_found db category_id category item_ids :
  categories db !! category_id = None →
  run (update_category category_id category item_ids) db = (db, HTTPException 404).
Proof. intros H. unfold update_category. run_handler. by rewrite H. Qed.

Lemma update_category_name_taken db category_id category item_ids c :
  categories db !! category_id = Some c →
  name_taken db category_id (CategoryCreate.name category) = true →
  run (update_category category_id category item_ids) db = (db, HTTPException 400).
Proof.
  intros Hc Ht. unfold update_category, name_taken in *. run_handler. rewrite Hc.
  destruct (first_category_named _ _) as [[id ?]|]; [|done].
  rewrite Ht. by run_handler.
Qed.

Lemma update_category_rename db category_id category c :
  categories db !! category_id = Some c →
  name_taken db category_id (CategoryCreate.name category) = false →
  let db' := renamed category_id (CategoryCreate.name category) db in
  run (update_category category_id category None) db
  = (db', Ok (category_response db' category_id
                {| Category.name := CategoryCreate.name category |})).
Proof.
  intros Hc Ht. unfold update_category, name_taken in *. run_handler. rewrite Hc.
  destruct (first_category_named _ _) as [[id ?]|]; [rewrite Ht|];
    run_handler; by rewrite lookup_alter_eq, Hc.
Qed.

Lemma update_category_items_missing db category_id category item_ids c :
  categories db !! category_id = Some c →
  name_taken db category_id (CategoryCreate.name category) = false →
  length (items_with_id_in db item_ids) ≠ length item_ids →
  run (update_category category_id category (Some item_ids)) db
  = (db, HTTPException 404).
Proof.
  intros Hc Ht Hlen. unfold update_category, name_taken in *. run_handler. rewrite Hc.
  destruct (first_category_named _ _) as [[id ?]|]; [rewrite Ht|];
    run_handler; unfold items_with_id_in in *; simpl;
    by rewrite bool_decide_eq_true_2.
Qed.

Lemma update_category_items_replaced db category_id category item_ids c :
  categories db !! category_id = Some c →
  name_taken db category_id (CategoryCreate.name category) = false →
  length (items_with_id_in db item_ids) = length item_ids →
  let db' := replace_items_of category_id (items_with_id_in db item_ids).*1
               (renamed category_id (CategoryCreate.name category) db) in
  run (update_category category_id category (Some item_ids)) db
  = (db', Ok (category_response db' category_id
                {| Category.name := CategoryCreate.name category |})).
Proof.
  intros Hc Ht Hlen. unfold update_category, name_taken in *. run_handler. rewrite Hc.
  destruct (first_category_named _ _) as [[id ?]|]; [rewrite Ht|];
    run_handler; unfold items_with_id_in in *; simpl;
    (rewrite bool_decide_eq_false_2 by (intros ?; done));
    run_handler; by rewrite lookup_alter_eq, Hc.
Qed.

Lemma filter_items_run db categories min_price max_price :
  run (filter_items categories min_price max_price) db
  = (db,
     match filter_query categories (default 0%float min_price)
             (default infinity max_price) db with
     | [] => HTTPException 404
     | rows => Ok ((λ '(i, it), item_response db i it) <$> rows)
     end).
Proof. unfold filter_items. run_handler. by destruct (filter_query _ _ _ _). Qed.

Lemma filter_items_pure categories min_price max_price db :
  (run (filter_items categories min_price max_price) db).1 = db.
Proof.
  unfold filter_items. run_handler.
  by destruct (filter_query _ _ _ _).
Qed.

Lemma serve_POST_items_invalid body db c :
  validate_ItemCreate body = HTTPException c →
  serve (POST_items body) db = (db, HTTPException c).
Proof. intros Hv. unfold serve, route, with_item_body. by rewrite Hv. Qed.

Lemma serve_PUT_items_invalid item_id body db c :
  validate_ItemCreate body = HTTPException c →
  serve (PUT_items item_id body) db = (db, HTTPException c).
Proof. intros Hv. unfold serve, route, with_item_body. by rewrite Hv. Qed.

Lemma serve_PUT_items_valid item_id body item db :
  validate_ItemCreate body = Ok item →
  serve (PUT_items item_id body) db
  = ((run (update_item item_id item) db).1,
     match (run (update_item item_id item) db).2 with
     | Ok r => Ok (ItemR r)
     | HTTPException c => HTTPException c
     end).
Proof.
  intros Hv. unfold serve, route, with_item_body. rewrite Hv.
  unfold run, bind, ret. by destruct (update_item item_id item _) as [s [r|c]].
Qed.

Lemma serve_POST_items_valid body item db :
  validate_ItemCreate body = Ok item →
  serve (POST_items body) db
  = (set_items <[new_id (items db) := item_row item]> db,
     Ok (ItemR (item_response
                  (set_items <[new_id (items db) := item_row item]> db)
                  (new_id (items db)) (item_row item)))).
Proof.
  intros Hv. unfold serve, route, with_item_body. rewrite Hv.
  pose proof (create_item_run db item) as Hrun. simpl in Hrun.
  unfold run, bind, ret in *.
  destruct (create_item item _) as [s [r|c]]; simpl in *; congruence.
Qed.

(** *** Items *)

(** C8: [update_item] on an id that is not the id of an item answers 404 and
    leaves the database as it was, so that no row is created; the same holds
    for the route [PUT /items/{item_id}] on a body that passes validation. *)
Theorem update_item_not_found db item_id item :
  items db !! item_id = None →
  run (update_item item_id item) db = (db, HTTPException 404)
  ∧ (∀ body, validate_ItemCreate body = Ok item →
       serve (PUT_items item_id body) db = (db, HTTPException 404)).
Proof.
  intros Hnone. split; [by apply update_item_missing|].
  intros body Hbody. rewrite (serve_PUT_items_valid _ _ _ _ Hbody).
  by rewrite (update_item_missing _ _ _ Hnone).
Qed.

Lemma update_item_not_found_witness :
  run (update_item 7 {| ItemCreate.name := "Pencil";
                        ItemCreate.description := None;
                        ItemCreate.price := 2%float |}) db_office
  = (db_office, HTTPException 404)
  ∧ (∀ body,
       validate_ItemCreate body
       = Ok {| ItemCreate.name := "Pencil";
               ItemCreate.description := None;
               ItemCreate.price := 2%float |} →
       serve (PUT_items 7 body) db_office = (db_office, HTTPException 404)).
Proof. apply (update_item_not_found db_office 7). reflexivity. Defined.

(** C10: a successful [update_item] replaces the name, the description and
    the price of the row of [item_id] and nothing else: the row stays under
    its id, the set of ids of [items] is the same, every other row of
    [items] is the same, and [categories] and the join table, hence the
    categories of every item, are the same. *)
Theorem update_item_frame db item_id item db' r :
  run (update_item item_id item) db = (db', Ok r) →
  is_Some (items db !! item_id)
  ∧ items db' !! item_id = Some (item_row item)
  ∧ dom (items db') = dom (items db)
  ∧ (∀ j, j ≠ item_id → items db' !! j = items db !! j)
  ∧ categories db' = categories db
  ∧ item_category db' = item_category db
  ∧ (∀ j, categories_of db' j = categories_of db j)
  ∧ ItemResponse.id r = item_id
  ∧ ItemResponse.categories r
    = (Category.name ∘ snd) <$> categories_of db item_id.
Proof.
  intros Hrun. destruct (items db !! item_id) as [it|] eqn:Hit.
  - rewrite (update_item_found _ _ _ _ Hit) in Hrun.
    injection Hrun as <- <-. simpl.
    split_and!; try done.
    + apply lookup_insert_eq.
    + rewrite dom_insert_L. apply subseteq_union_1_L, singleton_subseteq_l.
      by apply elem_of_dom_2 in Hit.
    + intros j Hj. by apply lookup_insert_ne.
  - rewrite (update_item_missing _ _ item Hit) in Hrun. congruence.
Qed.

Lemma update_item_frame_witness :
  let item := {| ItemCreate.name := "Pencil";
                 ItemCreate.description := Some "HB";
                 ItemCreate.price := 2%float |} in
  let db' := set_items <[1 := item_row item]> db_office in
  is_Some (items db_office !! 1)
  ∧ items db' !! 1 = Some (item_row item)
  ∧ dom (items db') = dom (items db_office)
  ∧ (∀ j, j ≠ 1 → items db' !! j = items db_office !! j)
  ∧ categories db' = categories db_office
  ∧ item_category db' = item_category db_office
  ∧ (∀ j, categories_of db' j = categories_of db_office j)
  ∧ ItemResponse.id (item_response db' 1 (item_row item)) = 1
  ∧ ItemResponse.categories (item_response db' 1 (item_row item))
    = (Category.name ∘ snd) <$> categories_of db_office 1.
Proof.
  intros item db'.
  apply (update_item_frame db_office 1 item db' (item_response db' 1 (item_row item))).
  by vm_compute.
Defined.

(** C9, as the code has it: a body whose [name] is missing or null fails
    validation with 422 on [POST /items/] and on [PUT /items/{item_id}], and
    the database is left as it was; a body whose [name] is the empty string
    passes validation, and the item is created, or the existing item
    updated, with the empty name: [POST /items/] answers 200 and stores a
    new row with that name, [PUT /items/{item_id}] on an existing item
    answers 200 and leaves that name in its row. *)
Theorem item_name_required :
  (∀ body, (∀ n, ItemBody.name body ≠ Value n) →
     (∀ db, serve (POST_items body) db = (db, HTTPException 422))
     ∧ (∀ db item_id, serve (PUT_items item_id body) db = (db, HTTPException 422)))
  ∧ (∀ d p db,
       let body := {| ItemBody.name := Value "";
                      ItemBody.description := d;
                      ItemBody.price := Value p |} in
       let row := {| Item.name := "";
                     Item.description := match d with Value s => Some s | _ => None end;
                     Item.price := p |} in
       (∃ db' r,
          serve (POST_items body) db = (db', Ok (ItemR r))
          ∧ items db !! ItemResponse.id r = None
          ∧ items db' !! ItemResponse.id r = Some row
          ∧ size (items db') = S (size (items db))
          ∧ ItemResponse.name r = "")
       ∧ (∀ item_id it, items db !! item_id = Some it →
            ∃ db' r,
              serve (PUT_items item_id body) db = (db', Ok (ItemR r))
              ∧ items db' !! item_id = Some row
              ∧ ItemResponse.id r = item_id
              ∧ ItemResponse.name r = "")).
Proof.
  split.
  - intros body Hname.
    assert (validate_ItemCreate body = HTTPException 422) as Hv.
    { unfold validate_ItemCreate. destruct (ItemBody.name body) as [| |n]; try done.
      by destruct (Hname n). }
    split.
    + intros db. by apply serve_POST_items_invalid.
    + intros db item_id. by apply serve_PUT_items_invalid.
  - intros d p db body row.
    assert (validate_ItemCreate body
            = Ok {| ItemCreate.name := "";
                    ItemCreate.description :=
                      match d with Value s => Some s | _ => None end;
                    ItemCreate.price := p |}) as Hv by done.
    split.
    + eexists _, _. split; [by apply serve_POST_items_valid|]. simpl.
      split_and!; try done.
      * apply new_id_fresh.
      * apply lookup_insert_eq.
      * apply map_size_insert_None, new_id_fresh.
    + intros item_id it Hit. eexists _, _.
      split; [rewrite (serve_PUT_items_valid _ _ _ _ Hv);
              by rewrite (update_item_found _ _ _ _ Hit)|].
      simpl. split_and!; try done. apply lookup_insert_eq.
Qed.

Lemma item_name_required_witness :
  let missing := {| ItemBody.name := Missing;
                    ItemBody.description := Value "HB";
                    ItemBody.price := Value 2%float |} in
  let empty := {| ItemBody.name := Value "";
                  ItemBody.description := Value "HB";
                  ItemBody.price := Value 2%float |} in
  let row := {| Item.name := ""; Item.description := Some "HB";
                Item.price := 2%float |} in
  (∀ db, serve (POST_items missing) db = (db, HTTPException 422))
  ∧ (∀ db item_id, serve (PUT_items item_id missing) db = (db, HTTPException 422))
  ∧ (∃ db' r,
       serve (POST_items empty) db_office = (db', Ok (ItemR r))
       ∧ items db_office !! ItemResponse.id r = None
       ∧ items db' !! ItemResponse.id r = Some row
       ∧ size (items db') = S (size (items db_office))
       ∧ ItemResponse.name r = "")
  ∧ (∃ db' r,
       serve (PUT_items 1 empty) db_office = (db', Ok (ItemR r))
       ∧ items db' !! 1 = Some row
       ∧ ItemResponse.id r = 1
       ∧ ItemResponse.name r = "").
Proof.
  intros missing empty row.
  destruct item_name_required as [Hmissing Hempty].
  destruct (Hmissing missing) as [Hpost Hput]; [intros n; simpl; discriminate|].
  destruct (Hempty (Value "HB") 2%float db_office) as [Hcreate Hupdate].
  split_and!; [exact Hpost|exact Hput|exact Hcreate|].
  apply (Hupdate 1 pen). reflexivity.
Defined.

(** C9 as stated fails: [POST /items/] with the empty name answers 200 and
    stores an item with that name, and so does [PUT /items/1]. *)
Lemma item_name_required_counterexample :
  let body := {| ItemBody.name := Value "";
                 ItemBody.description := Missing;
                 ItemBody.price := Value 1.5%float |} in
  let unnamed := {| Item.name := ""; Item.description := None;
                    Item.price := 1.5%float |} in
  serve (POST_items body) empty_db
  = (set_items <[1 := unnamed]> empty_db,
     Ok (ItemR {| ItemResponse.id := 1;
                  ItemResponse.name := "";
                  ItemResponse.description := None;
                  ItemResponse.price := 1.5%float;
                  ItemResponse.categories := [] |}))
  ∧ items (serve (POST_items body) empty_db).1 !! 1 = Some unnamed
  ∧ items (serve (PUT_items 1 body) db_office).1 !! 1 = Some unnamed
  ∧ (∃ r, (serve (PUT_items 1 body) db_office).2 = Ok r).
Proof. simpl. split_and!; try by vm_compute. by eexists. Qed.

(** *** Category names *)

(** C7: when a category with the requested name is stored,
    [create_category] answers 400 and leaves the database, hence the set of
    categories and its size, as it was. *)
Theorem create_category_duplicate_name db category k c :
  categories db !! k = Some c →
  Category.name c = CategoryCreate.name category →
  run (create_category category) db = (db, HTTPException 400)
  ∧ size (categories (run (create_category category) db).1) = size (categories db).
Proof.
  intros Hk Hn.
  destruct (first_category_named_is_Some _ _ _ _ Hk Hn) as [x Hx].
  by rewrite (create_category_taken _ _ _ Hx).
Qed.

Lemma create_category_duplicate_name_witness :
  run (create_category {| CategoryCreate.name := "Office" |}) db_office
  = (db_office, HTTPException 400)
  ∧ size (categories
            (run (create_category {| CategoryCreate.name := "Office" |}) db_office).1)
    = size (categories db_office).
Proof.
  apply (create_category_duplicate_name db_office _ 1 {| Category.name := "Office" |});
    reflexivity.
Defined.


Lemma name_taken_free db category_id name :
  (∀ k c, categories db !! k = Some c → Category.name c = name → k = category_id) →
  name_taken db category_id name = false.
Proof.
  intros Hfree. unfold name_taken.
  destruct (first_category_named db name) as [[id c]|] eqn:E; [|done].
  apply first_category_named_Some in E as [Hc Hn].
  apply bool_decide_eq_false. intros Hne. apply Hne. by eapply Hfree.
Qed.

Lemma name_taken_other db category_id k c :
  unique_category_names db →
  categories db !! k = Some c → k ≠ category_id →
  name_taken db category_id (Category.name c) = true.
Proof.
  intros Huniq Hc Hne. unfold name_taken.
  destruct (first_category_named_is_Some db (Category.name c) k c Hc eq_refl)
    as [[id c'] E].
  rewrite E. apply first_category_named_Some in E as [Hc' Hn].
  apply bool_decide_eq_true. intros ->. apply Hne.
  by apply (Huniq _ _ _ _ Hc Hc').
Qed.


Lemma renamed_same db category_id c :
  categories db !! category_id = Some c →
  renamed category_id (Category.name c) db = db.
Proof.
  intros Hc. destruct db as [its cats rows]. unfold renamed, set_categories. simpl in *.
  f_equal. apply map_eq. intros k. rewrite lookup_alter.
  case_decide; [subst k|done]. rewrite Hc. by destruct c.
Qed.






(** C6: in a database whose category names are pairwise different,
    [update_category] with the current name of the category itself never
    answers 400, and answers 200 when no [item_ids] are given, while with
    the current name of any other category it answers 400 and changes
    nothing. *)
Theorem update_category_name_check db category_id c item_ids :
  unique_category_names db →
  categories db !! category_id = Some c →
  let own := {| CategoryCreate.name := Category.name c |} in
  (run (update_category category_id own item_ids) db).2 ≠ HTTPException 400
  ∧ (∃ r, run (update_category category_id own None) db = (db, Ok r))
  ∧ (∀ k c', k ≠ category_id → categories db !! k = Some c' →
       run (update_category category_id {| CategoryCreate.name := Category.name c' |}
              item_ids) db
       = (db, HTTPException 400)).
Proof.
  intros Huniq Hc own.
  assert (name_taken db category_id (CategoryCreate.name own) = false) as Ht.
  { apply name_taken_free. intros k c' Hk Hn. by apply (Huniq _ _ _ _ Hk Hc). }
  split_and!.
  - destruct item_ids as [item_ids|].
    + destruct (decide (length (items_with_id_in db item_ids) = length item_ids))
        as [Hlen|Hlen].
      * by rewrite (update_category_items_replaced _ _ _ _ _ Hc Ht Hlen).
      * by rewrite (update_category_items_missing _ _ _ _ _ Hc Ht Hlen).
    + by rewrite (update_category_rename _ _ _ _ Hc Ht).
  - rewrite (update_category_rename _ _ _ _ Hc Ht). simpl.
    rewrite (renamed_same _ _ _ Hc). eauto.
  - intros k c' Hne Hk. apply (update_category_name_taken _ _ _ _ c Hc).
    simpl. by apply (name_taken_other _ _ k).
Qed.

Lemma db_two_categories_unique : unique_category_names db_two_categories.
Proof.
  intros k1 k2 c1 c2 H1 H2 Hn. simpl in H1, H2.
  apply lookup_insert_Some in H1 as [[<- <-]|[_ [<- <-]%lookup_singleton_Some]];
    apply lookup_insert_Some in H2 as [[<- <-]|[_ [<- <-]%lookup_singleton_Some]];
    done.
Qed.

Lemma update_category_name_check_witness :
  let own := {| CategoryCreate.name := "Books" |} in
  (run (update_category 2 own (Some [1])) db_two_categories).2 ≠ HTTPException 400
  ∧ (∃ r, run (update_category 2 own None) db_two_categories
          = (db_two_categories, Ok r))
  ∧ (∀ k c', k ≠ 2 → categories db_two_categories !! k = Some c' →
       run (update_category 2 {| CategoryCreate.name := Category.name c' |}
              (Some [1])) db_two_categories
       = (db_two_categories, HTTPException 400)).
Proof.
  apply (update_category_name_check db_two_categories 2 {| Category.name := "Books" |}).
  - exact db_two_categories_unique.
  - reflexivity.
Defined.

(** *** Membership of a category *)




(** C1, as the code has it: for an existing category and a new name that no
    other category has, [update_category] with [item_ids] answers 404 and
    leaves the database as it was when one of the ids is not the id of an
    item; and when the ids are pairwise different and each is the id of an
    item, it answers 200 and the items of the category are exactly the items
    with those ids, in the database and in the response. *)
Theorem update_category_items_strict db category_id category item_ids c :
  categories db !! category_id = Some c →
  (∀ k c', categories db !! k = Some c' →
           Category.name c' = CategoryCreate.name category → k = category_id) →
  ((∃ i, i ∈ item_ids ∧ items db !! i = None) →
     run (update_category category_id category (Some item_ids)) db
     = (db, HTTPException 404))
  ∧ (NoDup item_ids → (∀ i, i ∈ item_ids → is_Some (items db !! i)) →
     ∃ db' r,
       run (update_category category_id category (Some item_ids)) db = (db', Ok r)
       ∧ (∀ i, i ∈ (items_of db' category_id).*1 ↔ i ∈ item_ids)
       ∧ (∀ i, i ∈ ItemResponse.id <$> CategoryResponse.items r ↔ i ∈ item_ids)
       ∧ items db' = items db).
Proof.
  intros Hc Hfree. apply name_taken_free in Hfree as Ht. split.
  - intros (i & Hi & Hnone).
    apply (update_category_items_missing _ _ _ _ _ Hc Ht).
    rewrite items_with_id_in_length. intros [_ Hall].
    apply Hall in Hi as [it Hit]. congruence.
  - intros Hnd Hall.
    assert (length (items_with_id_in db item_ids) = length item_ids) as Hlen.
    { by apply items_with_id_in_length. }
    rewrite (update_category_items_replaced _ _ _ _ _ Hc Ht Hlen). simpl.
    set (db1 := renamed category_id (CategoryCreate.name category) db).
    assert (∀ i, i ∈ (items_of (replace_items_of category_id
                                  (items_with_id_in db item_ids).*1 db1)
                        category_id).*1 ↔ i ∈ item_ids) as Hmem.
    { intros i. rewrite replace_items_of_elem.
      - rewrite items_with_id_in_ids. split; [by intros [? _]|]. intros Hi. auto.
      - intros j Hj. by apply items_with_id_in_ids in Hj as [_ ?]. }
    eexists _, _. split; [done|]. split_and!; [done| |done].
    intros i. by rewrite category_response_ids.
Qed.

Lemma update_category_items_strict_witness :
  ∃ db' r,
    run (update_category 1 {| CategoryCreate.name := "Stationery" |} (Some [1]))
        db_two_categories = (db', Ok r)
    ∧ (∀ i, i ∈ (items_of db' 1).*1 ↔ i ∈ [1])
    ∧ (∀ i, i ∈ ItemResponse.id <$> CategoryResponse.items r ↔ i ∈ [1])
    ∧ items db' = items db_two_categories.
Proof.
  apply (update_category_items_strict db_two_categories 1
           {| CategoryCreate.name := "Stationery" |} [1] {| Category.name := "Office" |}).
  - reflexivity.
  - intros k c' Hk Hn. exfalso. simpl in Hk.
    apply lookup_insert_Some in Hk as [[_ <-]|[_ Hk]]; [done|].
    apply lookup_singleton_Some in Hk as [_ <-]. done.
  - apply NoDup_singleton.
  - intros i ->%list_elem_of_singleton. by eexists.
Defined.

(** C1 as stated fails: on an existing category, with [item_ids] that all
    resolve, and with [item_ids] of which one does not resolve, the request
    answers 400 when the new name is the name of another category. *)
Lemma update_category_items_strict_counterexample :
  is_Some (categories db_two_categories !! 2)
  ∧ (∀ i, i ∈ [1] → is_Some (items db_two_categories !! i))
  ∧ run (update_category 2 {| CategoryCreate.name := "Office" |} (Some [1]))
        db_two_categories
    = (db_two_categories, HTTPException 400)
  ∧ items db_two_categories !! 7 = None
  ∧ run (update_category 2 {| CategoryCreate.name := "Office" |} (Some [7]))
        db_two_categories
    = (db_two_categories, HTTPException 400).
Proof.
  split_and!; try by vm_compute.
  - by eexists.
  - intros i ->%list_elem_of_singleton. by eexists.
Qed.

(** An id that is repeated in [item_ids] fails the length test although it
    is the id of an item. *)
Lemma update_category_repeated_id db category_id category item_ids c :
  categories db !! category_id = Some c →
  name_taken db category_id (CategoryCreate.name category) = false →
  ¬ NoDup item_ids →
  run (update_category category_id category (Some item_ids)) db
  = (db, HTTPException 404).
Proof.
  intros Hc Ht Hdup. apply (update_category_items_missing _ _ _ _ _ Hc Ht).
  rewrite items_with_id_in_length. by intros [? _].
Qed.

(** [PUT /categories/1] with [item_ids = [1; 1]], where item 1 exists. *)
Example update_category_repeated_id_office :
  run (update_category 1 {| CategoryCreate.name := "Office" |} (Some [1; 1])) db_office
  = (db_office, HTTPException 404).
Proof. by vm_compute. Qed.

(** *** Filtering items *)

Lemma unique_entities_elem {A} (rows : list (Z * A)) row :
  (∀ r r', r ∈ rows → r' ∈ rows → r.1 = r'.1 → r = r') →
  row ∈ unique_entities rows ↔ row ∈ rows.
Proof.
  induction rows as [|r rows IH]; intros Hfun; [done|]. simpl.
  rewrite !elem_of_cons, list_elem_of_filter.
  assert (row ∈ unique_entities rows ↔ row ∈ rows) as ->.
  { apply IH. intros r1 r2 H1 H2. apply Hfun; by right. }
  split.
  - intros [->|[_ Hin]]; [by left|by right].
  - intros [->|Hin]; [by left|].
    destruct (decide (row.1 = r.1)) as [Heq|Hne]; [|by right].
    left. apply Hfun; [by right|by left|done].
Qed.

Lemma join_categories_elem db q row cat :
  (row, cat) ∈ join_categories db q
  ↔ row ∈ q ∧ ∃ k, (k, cat) ∈ categories_of db row.1.
Proof.
  unfold join_categories. rewrite list_elem_of_bind. split.
  - intros (row' & Hin & Hrow').
    apply list_elem_of_fmap in Hin as ([k cat'] & [= -> ->] & Hin). eauto.
  - intros (Hrow & k & Hin). exists row. split; [|done].
    apply list_elem_of_fmap. by exists (k, cat).
Qed.

Lemma truthy_true {A} (l : option (list A)) :
  truthy l = true ↔ ∃ names, l = Some names ∧ names ≠ [].
Proof.
  destruct l as [[|x l]|]; simpl; split; try done.
  - by intros (? & [= <-] & ?).
  - by eexists.
  - by intros (? & [=] & ?).
Qed.

Lemma joined_query_elem db categories i it :
  (i, it) ∈ (if truthy categories
             then fst <$> filter (λ '(_, cat), Category.name cat ∈ default [] categories)
                                 (join_categories db (map_to_list (items db)))
             else map_to_list (items db))
  ↔ items db !! i = Some it
    ∧ (∀ names, categories = Some names → names ≠ [] →
         in_named_category db i names).
Proof.
  destruct (truthy categories) eqn:Ht.
  - apply truthy_true in Ht as (names & -> & Hne). simpl.
    rewrite list_elem_of_fmap. split.
    + intros ([row cat] & [= <-] & Hin).
      apply list_elem_of_filter in Hin as [Hname Hin].
      apply join_categories_elem in Hin as (Hrow & k & Hk).
      apply elem_of_map_to_list in Hrow.
      apply elem_of_categories_of in Hk as [Hrel Hcat].
      split; [done|]. intros ? [= <-] _. by exists k, cat.
    + intros [Hit Hcat]. destruct (Hcat names eq_refl Hne) as (k & cat & Hrel & Hk & Hn).
      exists ((i, it), cat). split; [done|].
      apply list_elem_of_filter. split; [done|].
      apply join_categories_elem. split; [by apply elem_of_map_to_list|].
      exists k. by apply elem_of_categories_of.
  - rewrite elem_of_map_to_list. split; [|by intros [? _]].
    intros Hit. split; [done|]. intros names -> Hne.
    assert (truthy (Some names) = true) as Ht'; [|congruence].
    apply truthy_true. by exists names.
Qed.

Lemma filter_query_elem db categories min_price max_price i it :
  (i, it) ∈ filter_query categories (default 0%float min_price)
              (default infinity max_price) db
  ↔ matches db categories min_price max_price i it.
Proof.
  unfold filter_query, matches.
  rewrite unique_entities_elem.
  - rewrite list_elem_of_filter, joined_query_elem.
    unfold price_between. rewrite andb_true_iff. tauto.
  - intros [j jt] [j' jt'] [_ Hr]%list_elem_of_filter [_ Hr']%list_elem_of_filter.
    apply joined_query_elem in Hr as [Hr _]. apply joined_query_elem in Hr' as [Hr' _].
    simpl. intros <-. congruence.
Qed.

Lemma filter_items_rows db categories min_price max_price :
  match (run (filter_items categories min_price max_price) db).2 with
  | Ok rs =>
      ∀ r, r ∈ rs ↔ ∃ i it, matches db categories min_price max_price i it
                            ∧ r = item_response db i it
  | HTTPException code =>
      code = 404 ∧ ∀ i it, ¬ matches db categories min_price max_price i it
  end.
Proof.
  rewrite filter_items_run. simpl.
  pose proof (filter_query_elem db categories min_price max_price) as Hq.
  destruct (filter_query _ _ _ _) as [|row rows].
  - split; [done|]. intros i it Hm. apply Hq in Hm. by apply elem_of_nil in Hm.
  - intros r.
    change (r ∈ (λ '(i, it), item_response db i it) <$> row :: rows ↔
            ∃ i it, matches db categories min_price max_price i it
                    ∧ r = item_response db i it).
    rewrite list_elem_of_fmap. split.
    + intros ([i it] & -> & Hin). exists i, it. by rewrite <-Hq.
    + intros (i & it & Hm & ->). exists (i, it). by rewrite Hq.
Qed.

Lemma item_response_categories db i it n :
  n ∈ ItemResponse.categories (item_response db i it)
  ↔ ∃ k c, (i, k) ∈ item_category db
           ∧ categories db !! k = Some c
           ∧ Category.name c = n.
Proof.
  simpl. rewrite list_elem_of_fmap. split.
  - intros ([k c] & -> & [??]%elem_of_categories_of). by exists k, c.
  - intros (k & c & Hrow & Hc & <-). exists (k, c). split; [done|].
    by apply elem_of_categories_of.
Qed.

(** C4: when [filter_items] answers 200, every response of the list carries
    the id, name, description and price of a stored item and the names of
    the categories of that item; its price lies between [min_price] (0 when
    omitted) and [max_price] (infinity when omitted), both included; and
    when a non-empty list of names is given, the item belongs to a category
    with one of the names, a name that the response lists. Conversely every
    stored item with such a price and such a category has its response in
    the list. When [filter_items] answers an error, the error is 404 and no
    stored item is such. *)
Theorem filter_items_exact db category_names min_price max_price :
  match (run (filter_items category_names min_price max_price) db).2 with
  | Ok rs =>
      (∀ r, r ∈ rs →
         PrimFloat.leb (default 0%float min_price) (ItemResponse.price r) = true
         ∧ PrimFloat.leb (ItemResponse.price r) (default infinity max_price) = true
         ∧ (∀ names, category_names = Some names → names ≠ [] →
              in_named_category db (ItemResponse.id r) names
              ∧ ∃ n, n ∈ ItemResponse.categories r ∧ n ∈ names)
         ∧ ∃ it, items db !! ItemResponse.id r = Some it
                 ∧ ItemResponse.name r = Item.name it
                 ∧ ItemResponse.description r = Item.description it
                 ∧ ItemResponse.price r = Item.price it
                 ∧ ∀ n, n ∈ ItemResponse.categories r
                        ↔ ∃ k c, (ItemResponse.id r, k) ∈ item_category db
                                 ∧ categories db !! k = Some c
                                 ∧ Category.name c = n)
      ∧ (∀ i it, matches db category_names min_price max_price i it →
           ∃ r, r ∈ rs
                ∧ ItemResponse.id r = i
                ∧ ItemResponse.name r = Item.name it
                ∧ ItemResponse.description r = Item.description it
                ∧ ItemResponse.price r = Item.price it)
      ∧ (∀ r, r ∈ rs ↔ ∃ i it, matches db category_names min_price max_price i it
                               ∧ r = item_response db i it)
  | HTTPException code =>
      code = 404 ∧ ∀ i it, ¬ matches db category_names min_price max_price i it
  end.
Proof.
  pose proof (filter_items_rows db category_names min_price max_price) as Hrows.
  destruct (run (filter_items category_names min_price max_price) db).2 as [rs|code];
    [|done].
  split_and!; [| |done].
  - intros r (i & it & (Hit & Hlo & Hhi & Hcat) & ->)%Hrows.
    split_and!; [done|done| |].
    + intros names Hnames Hne.
      pose proof (Hcat names Hnames Hne) as (k & c & Hrow & Hc & Hn).
      split; [by exists k, c|]. exists (Category.name c). split; [|done].
      apply item_response_categories. by exists k, c.
    + exists it. split_and!; try done. intros n. apply item_response_categories.
  - intros i it Hm. exists (item_response db i it). split_and!; try done.
    apply Hrows. by exists i, it.
Qed.

Lemma filter_items_exact_witness :
  ∃ rs,
    (run (filter_items (Some ["Books"]) (Some 1%float) (Some 2%float)) db_shelved).2
    = Ok rs
    ∧ item_response db_shelved 1 pen ∈ rs
    ∧ ∀ r, r ∈ rs →
           PrimFloat.leb 1%float (ItemResponse.price r) = true
           ∧ PrimFloat.leb (ItemResponse.price r) 2%float = true
           ∧ ItemResponse.id r = 1
           ∧ ∃ n, n ∈ ItemResponse.categories r ∧ n ∈ ["Books"].
Proof.
  pose proof (filter_items_exact db_shelved (Some ["Books"])
                (Some 1%float) (Some 2%float)) as Hexact.
  destruct (run (filter_items (Some ["Books"]) (Some 1%float) (Some 2%float))
              db_shelved).2 as [rs|code] eqn:Hrun; [|by vm_compute in Hrun].
  destruct Hexact as (Hsound & _ & Hrows).
  exists rs. split_and!; [done| |].
  - apply Hrows. exists 1, pen. split; [|done].
    split_and!; try reflexivity.
    intros names [= <-] _. exists 2, {| Category.name := "Books" |}.
    split_and!; [|reflexivity|by apply list_elem_of_singleton].
    simpl. apply elem_of_cons. right. by apply list_elem_of_singleton.
  - intros r Hr. destruct (Hsound r Hr) as (Hlo & Hhi & Hcat & it & Hit & _).
    destruct (Hcat ["Books"] eq_refl) as [_ Hn]; [done|].
    split_and!; try done.
    destruct (decide (ItemResponse.id r = 1)) as [|Hne]; [done|].
    simpl in Hit. rewrite lookup_singleton_ne in Hit by done. done.
Defined.

(** C5: when no stored item matches the request, [filter_items] answers 404
    and the database is as it was; and in no case does it answer 200 with an
    empty list. *)
Theorem filter_items_no_match db categories min_price max_price :
  (∀ i it, ¬ matches db categories min_price max_price i it) →
  run (filter_items categories min_price max_price) db = (db, HTTPException 404)
  ∧ (∀ db0, (run (filter_items categories min_price max_price) db0).2 ≠ Ok []).
Proof.
  intros Hnone. split.
  - rewrite filter_items_run.
    pose proof (filter_query_elem db categories min_price max_price) as Hq.
    destruct (filter_query _ _ _ _) as [|[i it] rows]; [done|].
    destruct (Hnone i it). apply Hq. by left.
  - intros db0. rewrite filter_items_run. simpl.
    by destruct (filter_query _ _ _ _).
Qed.

Lemma filter_items_no_match_witness :
  run (filter_items (Some ["Books"]) (Some 10%float) (Some 20%float)) db_office
  = (db_office, HTTPException 404)
  ∧ (∀ db0,
       (run (filter_items (Some ["Books"]) (Some 10%float) (Some 20%float)) db0).2
       ≠ Ok []).
Proof.
  apply (filter_items_no_match db_office).
  intros i it (Hit & Hmin & _). simpl in Hit.
  apply lookup_singleton_Some in Hit as [_ <-]. by vm_compute in Hmin.
Defined.

(** ** Further properties of the handlers *)

(** *** The commits of the application *)

Lemma run_bind_ret_result {A B} (h : Handler A) (f : A → B) db :
  (run (do r <- h; ret (f r)) db).2
  = match (run h db).2 with
    | Ok a => Ok (f a)
    | HTTPException c => HTTPException c
    end.
Proof. unfold run, bind, ret. by destruct (h _) as [s [a|c]]. Qed.

Lemma update_category_change db category_id category item_ids :
  change db (run (update_category category_id category item_ids) db).1.
Proof.
  destruct (categories db !! category_id) as [c|] eqn:Hc;
    [|rewrite update_category_not_found by done; constructor].
  destruct (name_taken db category_id (CategoryCreate.name category)) eqn:Ht;
    [rewrite (update_category_name_taken _ _ _ _ _ Hc Ht); constructor|].
  destruct item_ids as [item_ids|].
  - destruct (decide (length (items_with_id_in db item_ids) = length item_ids))
      as [Hlen|Hlen].
    + rewrite (update_category_items_replaced _ _ _ _ _ Hc Ht Hlen).
      by eapply change_replace_items.
    + rewrite (update_category_items_missing _ _ _ _ _ Hc Ht Hlen). constructor.
  - rewrite (update_category_rename _ _ _ _ Hc Ht). by eapply change_rename.
Qed.

Lemma serve_change req db : change db (serve req db).1.
Proof.
  destruct req; unfold serve, route; rewrite run_bind_ret.
  - unfold with_item_body. destruct (validate_ItemCreate body) as [item|];
      [|constructor].
    rewrite create_item_run. constructor.
  - unfold with_item_body. destruct (validate_ItemCreate body) as [item|];
      [|constructor].
    destruct (items db !! item_id) as [it|] eqn:E.
    + rewrite (update_item_found _ _ _ _ E). by eapply change_update_item.
    + rewrite (update_item_missing _ _ item E). constructor.
  - rewrite delete_item_run. destruct (items db !! item_id) as [it|] eqn:E;
      [by eapply change_delete_item|constructor].
  - destruct (first_category_named db (CategoryCreate.name category)) as [x|] eqn:E.
    + rewrite (create_category_taken _ _ _ E). constructor.
    + rewrite (create_category_fresh _ _ E). by constructor.
  - constructor.
  - destruct (categories db !! category_id) as [c|] eqn:Hc;
      [|rewrite add_item_to_category_not_found by auto; constructor].
    destruct (items db !! item_id) as [it|] eqn:Hit;
      [|rewrite add_item_to_category_not_found by auto; constructor].
    rewrite (add_item_to_category_found _ _ _ _ _ Hc Hit).
    by eapply change_add_item_to_category.
  - apply update_category_change.
  - rewrite filter_items_pure. constructor.
Qed.

Lemma reachable_ind_change (P : DB → Prop) :
  P empty_db →
  (∀ db db', P db → change db db' → P db') →
  ∀ db, reachable db → P db.
Proof.
  intros Hempty Hstep. induction 1 as [|req db _ IH]; [done|].
  eapply Hstep; [exact IH|apply serve_change].
Qed.

(** *** Invariants of the join table *)

Lemma change_referential_integrity db db' :
  change db db' → referential_integrity db → referential_integrity db'.
Proof.
  intros Hch Hri. destruct Hch; intros i k; simpl.
  - apply Hri.
  - intros [??]%Hri. split; [|done]. apply lookup_insert_is_Some'. by right.
  - intros [??]%Hri. split; [|done]. apply lookup_insert_is_Some'. by right.
  - intros [Hne [??]%Hri]%list_elem_of_filter. split; [|done].
    apply lookup_delete_is_Some. done.
  - intros [??]%Hri. split; [done|]. apply lookup_insert_is_Some'. by right.
  - unfold with_member. case_bool_decide; [|apply Hri]. simpl.
    intros [Hin|[= -> ->]%list_elem_of_singleton]%elem_of_app; [by apply Hri|].
    split; by eexists.
  - intros [??]%Hri. split; [done|]. by apply lookup_alter_is_Some.
  - rewrite lookup_alter_is_Some.
    intros [[_ Hin]%list_elem_of_filter|Hin]%elem_of_app; [by apply Hri|].
    apply list_elem_of_fmap in Hin as (j & [= -> ->] & Hj).
    apply list_elem_of_filter in Hj as [_ Hj].
    apply items_with_id_in_ids in Hj as [_ ?]. split; [done|by eexists].
Qed.

Lemma change_NoDup db db' :
  change db db' → NoDup (item_category db) → NoDup (item_category db').
Proof.
  intros Hch Hnd. destruct Hch; simpl; try done.
  - by apply NoDup_filter.
  - unfold with_member. case_bool_decide as Hmem; [|done]. simpl.
    apply NoDup_app. split_and!; [done| |apply NoDup_singleton].
    intros row Hrow ->%list_elem_of_singleton. apply Hmem.
    apply elem_of_items_of_ids. split; [done|by eexists].
  - apply NoDup_app. split_and!.
    + by apply NoDup_filter.
    + intros [i k] [_ Hin]%list_elem_of_filter
        (j & [= -> ->] & Hj)%list_elem_of_fmap.
      apply list_elem_of_filter in Hj as [Hold Hj]. apply Hold.
      apply items_with_id_in_ids in Hj as [_ ?].
      by apply elem_of_items_of_ids.
    + apply NoDup_fmap_2; [by intros ?? [= ->]|].
      apply NoDup_filter, items_with_id_in_NoDup.
Qed.

(** X1: every row of the join table of a reachable database names an item
    and a category that exist, and every request keeps it so: in particular
    [delete_item] takes the rows of the item with it. *)
Theorem referential_integrity_invariant :
  (∀ db, reachable db → referential_integrity db)
  ∧ (∀ req db, referential_integrity db → referential_integrity (serve req db).1).
Proof.
  split.
  - apply reachable_ind_change.
    + intros i k Hin. by apply elem_of_nil in Hin.
    + intros db db' Hri Hch. by eapply change_referential_integrity.
  - intros req db. apply change_referential_integrity, serve_change.
Qed.

Lemma referential_integrity_invariant_witness :
  referential_integrity
    (serve (POST_categories_items 1 1)
       (serve (POST_categories {| CategoryCreate.name := "Office" |})
          (serve (POST_items {| ItemBody.name := Value "Pen";
                                ItemBody.description := Missing;
                                ItemBody.price := Value 1.5%float |}) empty_db).1).1).1.
Proof.
  apply (proj1 referential_integrity_invariant).
  do 3 apply reachable_serve. apply reachable_empty.
Defined.

(** X2: the join table of a reachable database holds no row twice, and every
    request keeps it so: [add_item_to_category] appends a row only for an
    item that is not yet in the category, and [update_category] inserts rows
    only for the items that enter it. *)
Theorem item_category_NoDup_invariant :
  (∀ db, reachable db → NoDup (item_category db))
  ∧ (∀ req db, NoDup (item_category db) → NoDup (item_category (serve req db).1)).
Proof.
  split.
  - apply (reachable_ind_change (λ db, NoDup (item_category db))).
    + apply NoDup_nil_2.
    + intros db db' Hnd Hch. by eapply change_NoDup.
  - intros req db. apply change_NoDup, serve_change.
Qed.

Lemma item_category_NoDup_invariant_witness :
  NoDup (item_category
           (serve (POST_categories_items 1 1)
              (serve (POST_categories_items 1 1) db_office).1).1).
Proof.
  apply (proj2 item_category_NoDup_invariant), (proj2 item_category_NoDup_invariant).
  apply NoDup_nil_2.
Defined.

(** X3: a request that is answered with an error leaves the database as it
    was, whatever the route and the error. *)
Theorem error_leaves_database req db c :
  (serve req db).2 = HTTPException c → (serve req db).1 = db.
Proof.
  destruct req; unfold serve, route; rewrite run_bind_ret, run_bind_ret_result.
  - unfold with_item_body. destruct (validate_ItemCreate body) as [item|]; [|done].
    by rewrite create_item_run.
  - unfold with_item_body. destruct (validate_ItemCreate body) as [item|]; [|done].
    destruct (items db !! item_id) as [it|] eqn:E.
    + by rewrite (update_item_found _ _ _ _ E).
    + by rewrite (update_item_missing _ _ item E).
  - rewrite delete_item_run. by destruct (items db !! item_id).
  - destruct (first_category_named db (CategoryCreate.name category)) as [x|] eqn:E.
    + by rewrite (create_category_taken _ _ _ E).
    + by rewrite (create_category_fresh _ _ E).
  - done.
  - destruct (categories db !! category_id) as [cat|] eqn:Hc;
      [|by rewrite add_item_to_category_not_found by auto].
    destruct (items db !! item_id) as [it|] eqn:Hit;
      [|by rewrite add_item_to_category_not_found by auto].
    by rewrite (add_item_to_category_found _ _ _ _ _ Hc Hit).
  - destruct (categories db !! category_id) as [cat|] eqn:Hc;
      [|by rewrite update_category_not_found].
    destruct (name_taken db category_id (CategoryCreate.name category)) eqn:Ht;
      [by rewrite (update_category_name_taken _ _ _ _ _ Hc Ht)|].
    destruct item_ids as [item_ids|];
      [|by rewrite (update_category_rename _ _ _ _ Hc Ht)].
    destruct (decide (length (items_with_id_in db item_ids) = length item_ids))
      as [Hlen|Hlen].
    + by rewrite (update_category_items_replaced _ _ _ _ _ Hc Ht Hlen).
    + by rewrite (update_category_items_missing _ _ _ _ _ Hc Ht Hlen).
  - by rewrite filter_items_pure.
Qed.

Lemma error_leaves_database_witness :
  (serve (PUT_categories 1 {| CategoryCreate.name := "Stationery" |} (Some [1; 7]))
     db_two_categories).1 = db_two_categories.
Proof.
  apply (error_leaves_database _ _ 404). by vm_compute.
Defined.

(** *** Creating and deleting rows *)

Lemma categories_of_nil db item_id :
  (∀ k, (item_id, k) ∉ item_category db) → categories_of db item_id = [].
Proof.
  intros Hno. apply elem_of_nil_inv. intros [k c] Hin.
  apply elem_of_categories_of in Hin as [Hin _]. by apply (Hno k).
Qed.

Lemma items_of_nil db category_id :
  (∀ i, (i, category_id) ∉ item_category db) → items_of db category_id = [].
Proof.
  intros Hno. apply elem_of_nil_inv. intros [i it] Hin.
  apply elem_of_items_of in Hin as [Hin _]. by apply (Hno i).
Qed.

(** X4: [create_item] always answers 200; the id of the response was not in
    use, the row with the fields of the request is stored under it, the
    response repeats the fields, and every other row of [items], the
    categories and the join table are as before. *)
Theorem create_item_inserts db item :
  ∃ db' r,
    run (create_item item) db = (db', Ok r)
    ∧ items db !! ItemResponse.id r = None
    ∧ items db' !! ItemResponse.id r = Some (item_row item)
    ∧ (∀ j, j ≠ ItemResponse.id r → items db' !! j = items db !! j)
    ∧ size (items db') = S (size (items db))
    ∧ categories db' = categories db
    ∧ item_category db' = item_category db
    ∧ ItemResponse.name r = ItemCreate.name item
    ∧ ItemResponse.description r = ItemCreate.description item
    ∧ ItemResponse.price r = ItemCreate.price item.
Proof.
  eexists _, _. split; [apply create_item_run|]. simpl.
  pose proof (new_id_fresh (items db)) as Hfresh.
  split_and!; try done.
  - apply lookup_insert_eq.
  - intros j Hj. by apply lookup_insert_ne.
  - by apply map_size_insert_None.
Qed.

(** X5: in a database whose join rows name rows that exist, a new item comes
    back with an empty list of categories and a new category with an empty
    list of items. *)
Theorem created_rows_are_unrelated db :
  referential_integrity db →
  (∀ item r, (run (create_item item) db).2 = Ok r → ItemResponse.categories r = [])
  ∧ (∀ category r, (run (create_category category) db).2 = Ok r →
       CategoryResponse.items r = []).
Proof.
  intros Hri. split.
  - intros item r. rewrite create_item_run. intros [= <-]. simpl.
    rewrite categories_of_nil; [done|]. intros k Hin. apply Hri in Hin as [[it Hit] _].
    by rewrite new_id_fresh in Hit.
  - intros category r.
    destruct (first_category_named db (CategoryCreate.name category)) as [x|] eqn:E.
    + by rewrite (create_category_taken _ _ _ E).
    + rewrite (create_category_fresh _ _ E). intros [= <-]. simpl.
      rewrite items_of_nil; [done|]. intros i Hin. apply Hri in Hin as [_ [c Hc]].
      by rewrite new_id_fresh in Hc.
Qed.

Lemma db_shelved_referential_integrity : referential_integrity db_shelved.
Proof.
  intros i k Hin. simpl in Hin.
  apply elem_of_cons in Hin as [[= -> ->]|[= -> ->]%list_elem_of_singleton];
    split; by eexists.
Qed.

Lemma created_rows_are_unrelated_witness :
  (∀ item r, (run (create_item item) db_shelved).2 = Ok r →
     ItemResponse.categories r = [])
  ∧ (∀ category r, (run (create_category category) db_shelved).2 = Ok r →
       CategoryResponse.items r = []).
Proof.
  apply (created_rows_are_unrelated db_shelved).
  exact db_shelved_referential_integrity.
Defined.

(** X6: [delete_item] on an item that exists answers 200 and removes the row
    and exactly the rows of the join table that name the item; the other
    items and the categories are as before, and a second [delete_item] on
    the same id answers 404. *)
Theorem delete_item_removes db item_id it :
  items db !! item_id = Some it →
  ∃ db' m,
    run (delete_item item_id) db = (db', Ok m)
    ∧ items db' !! item_id = None
    ∧ (∀ j, j ≠ item_id → items db' !! j = items db !! j)
    ∧ categories db' = categories db
    ∧ (∀ i k, (i, k) ∈ item_category db' ↔ (i, k) ∈ item_category db ∧ i ≠ item_id)
    ∧ run (delete_item item_id) db' = (db', HTTPException 404).
Proof.
  intros Hit. eexists _, _. rewrite delete_item_run, Hit. split; [done|]. simpl.
  split_and!; try done.
  - apply lookup_delete_eq.
  - intros j Hj. by apply lookup_delete_ne.
  - intros i k. rewrite list_elem_of_filter. tauto.
  - rewrite delete_item_run. simpl. by rewrite lookup_delete_eq.
Qed.

Lemma delete_item_removes_witness :
  ∃ db' m,
    run (delete_item 1) db_office = (db', Ok m)
    ∧ items db' !! 1 = None
    ∧ (∀ j, j ≠ 1 → items db' !! j = items db_office !! j)
    ∧ categories db' = categories db_office
    ∧ (∀ i k, (i, k) ∈ item_category db' ↔ (i, k) ∈ item_category db_office ∧ i ≠ 1)
    ∧ run (delete_item 1) db' = (db', HTTPException 404).
Proof. apply (delete_item_removes db_office 1 pen). reflexivity. Defined.

(** X7: [create_category] with a name that no category has answers 200; the
    id of the response was not in use, the category is stored under it with
    the name of the request, the other categories, the items and the join
    table are as before, and the same request again answers 400. *)
Theorem create_category_inserts db category :
  (∀ k c, categories db !! k = Some c →
          Category.name c ≠ CategoryCreate.name category) →
  ∃ db' r,
    run (create_category category) db = (db', Ok r)
    ∧ categories db !! CategoryResponse.id r = None
    ∧ categories db' !! CategoryResponse.id r
      = Some {| Category.name := CategoryCreate.name category |}
    ∧ (∀ j, j ≠ CategoryResponse.id r → categories db' !! j = categories db !! j)
    ∧ size (categories db') = S (size (categories db))
    ∧ items db' = items db
    ∧ item_category db' = item_category db
    ∧ CategoryResponse.name r = CategoryCreate.name category
    ∧ run (create_category category) db' = (db', HTTPException 400).
Proof.
  intros Hfree.
  assert (first_category_named db (CategoryCreate.name category) = None) as Hnone.
  { destruct (first_category_named db _) as [[k c]|] eqn:E; [|done].
    apply first_category_named_Some in E as [Hk Hn]. by destruct (Hfree _ _ Hk). }
  eexists _, _. split; [by apply create_category_fresh|]. simpl.
  pose proof (new_id_fresh (categories db)) as Hfresh.
  split_and!; try done.
  - apply lookup_insert_eq.
  - intros j Hj. by apply lookup_insert_ne.
  - by apply map_size_insert_None.
  - set (db' := set_categories _ db).
    destruct (first_category_named_is_Some db' (CategoryCreate.name category)
                (new_id (categories db))
                {| Category.name := CategoryCreate.name category |})
      as [x Hx]; [apply lookup_insert_eq|done|].
    by apply (create_category_taken _ _ x).
Qed.

Lemma create_category_inserts_witness :
  ∃ db' r,
    run (create_category {| CategoryCreate.name := "Books" |}) db_office = (db', Ok r)
    ∧ categories db_office !! CategoryResponse.id r = None
    ∧ categories db' !! CategoryResponse.id r = Some {| Category.name := "Books" |}
    ∧ (∀ j, j ≠ CategoryResponse.id r →
         categories db' !! j = categories db_office !! j)
    ∧ size (categories db') = S (size (categories db_office))
    ∧ items db' = items db_office
    ∧ item_category db' = item_category db_office
    ∧ CategoryResponse.name r = "Books"
    ∧ run (create_category {| CategoryCreate.name := "Books" |}) db'
      = (db', HTTPException 400).
Proof.
  apply (create_category_inserts db_office {| CategoryCreate.name := "Books" |}).
  intros k c Hk. simpl in Hk. apply lookup_singleton_Some in Hk as [_ <-]. done.
Defined.

(** X8: [get_categories] answers 200 and leaves the database as it was; the
    list holds the response of every stored category and nothing else, one
    entry for each, with no id twice. *)
Theorem get_categories_lists_all db :
  ∃ rs,
    run get_categories db = (db, Ok rs)
    ∧ (∀ r, r ∈ rs ↔ ∃ k c, categories db !! k = Some c
                            ∧ r = category_response db k c)
    ∧ length rs = size (categories db)
    ∧ NoDup (CategoryResponse.id <$> rs).
Proof.
  eexists. split; [done|]. split_and!.
  - intros r. rewrite list_elem_of_fmap. split.
    + intros ([k c] & -> & Hin). exists k, c. by apply elem_of_map_to_list in Hin.
    + intros (k & c & Hk & ->). exists (k, c). by rewrite elem_of_map_to_list.
  - by rewrite length_fmap, length_map_to_list.
  - rewrite <-list_fmap_compose.
    erewrite list_fmap_ext; [apply NoDup_fst_map_to_list|].
    by intros ? [??] _.
Qed.

(** *** Adding an item to a category *)

Lemma omap_filter_None {A B} (f : A → option B) (P : A → Prop)
    `{∀ x, Decision (P x)} (l : list A) :
  (∀ x, ¬ P x → f x = None) → omap f (filter P l) = omap f l.
Proof.
  intros Hf. induction l as [|x l IH]; [done|].
  rewrite filter_cons. destruct (decide (P x)) as [HP|HP]; simpl.
  - destruct (f x); [f_equal|]; exact IH.
  - rewrite (Hf x HP). exact IH.
Qed.

Lemma items_of_with_member_other db category_id item_id k :
  k ≠ category_id →
  items_of (with_member category_id item_id db) k = items_of db k.
Proof.
  intros Hk. unfold with_member. case_bool_decide; [|done].
  unfold items_of. simpl. rewrite omap_app. simpl.
  rewrite bool_decide_eq_false_2 by done. by rewrite app_nil_r.
Qed.

Lemma categories_of_with_member_other db category_id item_id j :
  j ≠ item_id →
  categories_of (with_member category_id item_id db) j = categories_of db j.
Proof.
  intros Hj. unfold with_member. case_bool_decide; [|done].
  unfold categories_of. simpl. rewrite omap_app. simpl.
  rewrite bool_decide_eq_false_2 by done. by rewrite app_nil_r.
Qed.

(** X9: [add_item_to_category] answers 404 exactly when the category or the
    item does not exist, and 200 exactly when both exist. *)
Theorem add_item_to_category_status db category_id item_id :
  ((run (add_item_to_category category_id item_id) db).2 = HTTPException 404
   ↔ categories db !! category_id = None ∨ items db !! item_id = None)
  ∧ ((∃ r, (run (add_item_to_category category_id item_id) db).2 = Ok r)
     ↔ is_Some (categories db !! category_id) ∧ is_Some (items db !! item_id)).
Proof.
  destruct (categories db !! category_id) as [c|] eqn:Hc.
  - destruct (items db !! item_id) as [it|] eqn:Hit.
    + rewrite (add_item_to_category_found _ _ _ _ _ Hc Hit). simpl. split.
      * split; [done|]. by intros [?|?].
      * split; [by eauto|]. intros _. by eexists.
    + rewrite add_item_to_category_not_found by auto. simpl. split.
      * split; auto.
      * split; [by intros [? ?]|]. by intros [_ [? ?]].
  - rewrite add_item_to_category_not_found by auto. simpl. split.
    + split; auto.
    + split; [by intros [? ?]|]. by intros [[? ?] _].
Qed.

(** X10: [add_item_to_category] on a category and an item that exist puts the
    item among the items of the category and changes nothing else: the items
    and the categories are as before, the join table gains at most the row
    of the pair, the items of every other category and the categories of
    every other item are as before, and the categories of the item are those
    it had and the category. *)
Theorem add_item_to_category_adds db category_id item_id c it :
  categories db !! category_id = Some c →
  items db !! item_id = Some it →
  ∃ db' r,
    run (add_item_to_category category_id item_id) db = (db', Ok r)
    ∧ items db' = items db
    ∧ categories db' = categories db
    ∧ (∀ row, row ∈ item_category db'
              ↔ row ∈ item_category db ∨ row = (item_id, category_id))
    ∧ (∀ i, i ∈ (items_of db' category_id).*1
            ↔ i ∈ (items_of db category_id).*1 ∨ i = item_id)
    ∧ (∀ k, k ≠ category_id → items_of db' k = items_of db k)
    ∧ (∀ j, j ≠ item_id → categories_of db' j = categories_of db j)
    ∧ (∀ k c', (k, c') ∈ categories_of db' item_id
               ↔ (k, c') ∈ categories_of db item_id ∨ (k = category_id ∧ c' = c))
    ∧ r = item_response db' item_id it.
Proof.
  intros Hc Hit. eexists _, _.
  split; [by apply (add_item_to_category_found _ _ _ c it)|].
  assert (∀ row, row ∈ item_category (with_member category_id item_id db)
                 ↔ row ∈ item_category db ∨ row = (item_id, category_id)) as Hrows.
  { intros row. unfold with_member. case_bool_decide as Hmem; simpl.
    - by rewrite elem_of_app, list_elem_of_singleton.
    - split; [by left|]. intros [?|Heq]; [done|]. subst row.
      by apply elem_of_items_of_ids in Hmem as [? _]. }
  assert (items (with_member category_id item_id db) = items db) as Hitems.
  { unfold with_member. by case_bool_decide. }
  assert (categories (with_member category_id item_id db) = categories db) as Hcats.
  { unfold with_member. by case_bool_decide. }
  split_and!; try done.
  - intros i. rewrite !elem_of_items_of_ids, Hrows, Hitems. split.
    + intros [[?|[= ->]] ?]; auto.
    + intros [[??]|Heq]; [by auto|]. subst i. split; [by right|by eexists].
  - intros k Hk. by apply items_of_with_member_other.
  - intros j Hj. by apply categories_of_with_member_other.
  - intros k c'. rewrite !elem_of_categories_of, Hrows, Hcats. split.
    + intros [[?|[= ->]] Hk]; [by left|]. right. split; [done|congruence].
    + intros [[??]|[Hk Hc']]; [by auto|]. subst k c'. split; [by right|done].
Qed.

Lemma add_item_to_category_adds_witness :
  ∃ db' r,
    run (add_item_to_category 1 1) db_office = (db', Ok r)
    ∧ items db' = items db_office
    ∧ categories db' = categories db_office
    ∧ (∀ row, row ∈ item_category db' ↔ row ∈ item_category db_office ∨ row = (1, 1))
    ∧ (∀ i, i ∈ (items_of db' 1).*1 ↔ i ∈ (items_of db_office 1).*1 ∨ i = 1)
    ∧ (∀ k, k ≠ 1 → items_of db' k = items_of db_office k)
    ∧ (∀ j, j ≠ 1 → categories_of db' j = categories_of db_office j)
    ∧ (∀ k c', (k, c') ∈ categories_of db' 1
               ↔ (k, c') ∈ categories_of db_office 1
                 ∨ (k = 1 ∧ c' = {| Category.name := "Office" |}))
    ∧ r = item_response db' 1 pen.
Proof.
  apply (add_item_to_category_adds db_office 1 1 {| Category.name := "Office" |} pen);
    reflexivity.
Defined.

(** *** Updating a category *)

Lemma items_of_replace_other db category_id new k :
  k ≠ category_id →
  items_of (replace_items_of category_id new db) k = items_of db k.
Proof.
  intros Hk. unfold items_of at 1, replace_items_of. simpl. rewrite omap_app.
  rewrite omap_filter_None.
  - rewrite (elem_of_nil_inv (omap _ (_ <$> _))); [by rewrite app_nil_r|].
    intros y ([i c] & Hin & Hy)%list_elem_of_omap.
    apply list_elem_of_fmap in Hin as (j & [= -> ->] & _).
    by rewrite bool_decide_eq_false_2 in Hy.
  - intros [i c] Hrow. apply dec_stable in Hrow as [-> _].
    by rewrite bool_decide_eq_false_2.
Qed.

Lemma update_category_cases db category_id category item_ids :
  let out := run (update_category category_id category item_ids) db in
  let name := CategoryCreate.name category in
  (categories db !! category_id = None ∧ out = (db, HTTPException 404))
  ∨ (is_Some (categories db !! category_id)
     ∧ name_taken db category_id name = true ∧ out = (db, HTTPException 400))
  ∨ (is_Some (categories db !! category_id)
     ∧ name_taken db category_id name = false
     ∧ (∃ ids, item_ids = Some ids
               ∧ ¬ (NoDup ids ∧ ∀ i, i ∈ ids → is_Some (items db !! i)))
     ∧ out = (db, HTTPException 404))
  ∨ (is_Some (categories db !! category_id)
     ∧ name_taken db category_id name = false
     ∧ (∀ ids, item_ids = Some ids →
               NoDup ids ∧ ∀ i, i ∈ ids → is_Some (items db !! i))
     ∧ ∃ db', out = (db', Ok (category_response db' category_id
                                {| Category.name := name |}))
              ∧ db' = match item_ids with
                      | Some ids =>
                          replace_items_of category_id (items_with_id_in db ids).*1
                            (renamed category_id name db)
                      | None => renamed category_id name db
                      end).
Proof.
  intros out name. unfold out, name.
  destruct (categories db !! category_id) as [c|] eqn:Hc;
    [|left; split; [done|by apply update_category_not_found]].
  right.
  destruct (name_taken db category_id (CategoryCreate.name category)) eqn:Ht;
    [left; split_and!; [by eexists|done|by eapply update_category_name_taken]|].
  right. destruct item_ids as [ids|].
  - destruct (decide (length (items_with_id_in db ids) = length ids)) as [Hlen|Hlen].
    + right. split_and!; [by eexists|done| |].
      * intros ? [= <-]. by apply items_with_id_in_length.
      * eexists. split; [|done].
        by apply (update_category_items_replaced _ _ _ _ c).
    + left. split_and!; [by eexists|done| |].
      * exists ids. split; [done|]. by rewrite <-items_with_id_in_length.
      * by apply (update_category_items_missing _ _ _ _ c).
  - right. split_and!; [by eexists|done|done|].
    eexists. split; [|done]. by apply (update_category_rename _ _ _ c).
Qed.

(** X11: the answer of [update_category] is decided in this order: 404 when
    the category does not exist; 400 when the name check finds another
    category; 404 when [item_ids] are given and one of them is repeated or
    is not the id of an item; 200 otherwise. *)
Theorem update_category_outcome db category_id category item_ids :
  let out := (run (update_category category_id category item_ids) db).2 in
  let name := CategoryCreate.name category in
  let resolvable ids := NoDup ids ∧ ∀ i, i ∈ ids → is_Some (items db !! i) in
  (out = HTTPException 400
   ↔ is_Some (categories db !! category_id)
     ∧ name_taken db category_id name = true)
  ∧ (out = HTTPException 404
     ↔ categories db !! category_id = None
       ∨ (name_taken db category_id name = false
          ∧ ∃ ids, item_ids = Some ids ∧ ¬ resolvable ids))
  ∧ ((∃ r, out = Ok r)
     ↔ is_Some (categories db !! category_id)
       ∧ name_taken db category_id name = false
       ∧ ∀ ids, item_ids = Some ids → resolvable ids).
Proof.
  intros out name resolvable. unfold out, name, resolvable.
  destruct (update_category_cases db category_id category item_ids)
    as [[Hc ->]|[(Hc & Ht & ->)|[(Hc & Ht & (ids & -> & Hbad) & ->)
                                |(Hc & Ht & Hgood & db' & -> & _)]]]; simpl.
  - split_and!.
    + split; [done|]. intros [[? ?] _]. congruence.
    + split; auto.
    + split; [by intros [? ?]|]. intros [[? ?] _]. congruence.
  - split_and!.
    + split; auto.
    + split; [done|]. intros [?|[? _]]; [|congruence].
      destruct Hc. congruence.
    + split; [by intros [? ?]|]. intros (_ & ? & _). congruence.
  - split_and!.
    + split; [done|]. intros [_ ?]. congruence.
    + split; [|done]. intros _. right. split; [done|]. by exists ids.
    + split; [by intros [? ?]|]. intros (_ & _ & Hall). destruct Hbad. by apply Hall.
  - split_and!.
    + split; [done|]. intros [_ ?]. congruence.
    + split; [done|]. intros [?|[_ (ids & -> & Hbad)]].
      * destruct Hc. congruence.
      * destruct Hbad. by apply Hgood.
    + split; [|by eexists]. intros _. by split_and!.
Qed.

(** X12: [update_category] with [item_ids] in which an id occurs twice
    answers 404 and changes nothing, for an existing category and a free
    name, also when every id is the id of an item. *)
Theorem update_category_rejects_repeated_id db category_id category item_ids c :
  categories db !! category_id = Some c →
  (∀ k c', categories db !! k = Some c' →
           Category.name c' = CategoryCreate.name category → k = category_id) →
  ¬ NoDup item_ids →
  run (update_category category_id category (Some item_ids)) db
  = (db, HTTPException 404).
Proof.
  intros Hc Hfree Hdup. apply name_taken_free in Hfree.
  apply (update_category_items_missing _ _ _ _ _ Hc Hfree).
  rewrite items_with_id_in_length. by intros [? _].
Qed.

(** X13: a successful [update_category] without [item_ids] renames the
    category and changes nothing else: the other categories, the items and
    the join table are as before, and the response lists the items the
    category had. *)
Theorem update_category_rename_only db category_id category db' r :
  run (update_category category_id category None) db = (db', Ok r) →
  categories db' !! category_id
  = Some {| Category.name := CategoryCreate.name category |}
  ∧ (∀ k, k ≠ category_id → categories db' !! k = categories db !! k)
  ∧ dom (categories db') = dom (categories db)
  ∧ items db' = items db
  ∧ item_category db' = item_category db
  ∧ CategoryResponse.id r = category_id
  ∧ CategoryResponse.name r = CategoryCreate.name category
  ∧ ItemResponse.id <$> CategoryResponse.items r = (items_of db category_id).*1.
Proof.
  intros Hrun.
  destruct (update_category_cases db category_id category None)
    as [[_ E]|[(_ & _ & E)|[(_ & _ & _ & E)|([c Hc] & _ & _ & db1 & E & ->)]]];
    simpl in E; rewrite E in Hrun; try done.
  injection Hrun as <- <-. unfold renamed. simpl. split_and!; try done.
  - by rewrite lookup_alter_eq, Hc.
  - intros k Hk. by rewrite lookup_alter_ne.
  - apply dom_alter_L.
  - rewrite <-list_fmap_compose. apply list_fmap_ext. by intros ? [??] _.
Qed.

(** X14: a successful [update_category] with [item_ids] renames the category
    and replaces its items, and leaves the rest as it was: the items table,
    the name of every other category and the items of every other
    category. *)
Theorem update_category_replace_frame db category_id category item_ids db' r :
  run (update_category category_id category (Some item_ids)) db = (db', Ok r) →
  categories db' !! category_id
  = Some {| Category.name := CategoryCreate.name category |}
  ∧ items db' = items db
  ∧ (∀ k, k ≠ category_id → categories db' !! k = categories db !! k)
  ∧ (∀ k, k ≠ category_id → items_of db' k = items_of db k)
  ∧ CategoryResponse.id r = category_id
  ∧ CategoryResponse.name r = CategoryCreate.name category.
Proof.
  intros Hrun.
  destruct (update_category_cases db category_id category (Some item_ids))
    as [[_ E]|[(_ & _ & E)|[(_ & _ & _ & E)|([c Hc] & _ & _ & db1 & E & ->)]]];
    simpl in E; rewrite E in Hrun; try done.
  injection Hrun as <- <-. simpl. split_and!; try done.
  - by rewrite lookup_alter_eq, Hc.
  - intros k Hk. by rewrite lookup_alter_ne.
  - intros k Hk. by rewrite items_of_replace_other.
Qed.

Lemma update_category_rejects_repeated_id_witness :
  run (update_category 1 {| CategoryCreate.name := "Office" |} (Some [1; 1])) db_office
  = (db_office, HTTPException 404).
Proof.
  apply (update_category_rejects_repeated_id db_office 1 _ [1; 1]
           {| Category.name := "Office" |}).
  - reflexivity.
  - intros k c' Hk _. simpl in Hk. by apply lookup_singleton_Some in Hk as [<- _].
  - intros [Hnin _]%NoDup_cons. apply Hnin. by apply list_elem_of_singleton.
Defined.

Lemma update_category_rename_only_witness :
  let db' := renamed 1 "Stationery" db_office in
  categories db' !! 1 = Some {| Category.name := "Stationery" |}
  ∧ (∀ k, k ≠ 1 → categories db' !! k = categories db_office !! k)
  ∧ dom (categories db') = dom (categories db_office)
  ∧ items db' = items db_office
  ∧ item_category db' = item_category db_office
  ∧ CategoryResponse.id
      (category_response db' 1 {| Category.name := "Stationery" |}) = 1
  ∧ CategoryResponse.name
      (category_response db' 1 {| Category.name := "Stationery" |}) = "Stationery"
  ∧ ItemResponse.id
      <$> CategoryResponse.items
            (category_response db' 1 {| Category.name := "Stationery" |})
    = (items_of db_office 1).*1.
Proof.
  apply (update_category_rename_only db_office 1
           {| CategoryCreate.name := "Stationery" |}).
  by vm_compute.
Defined.

Lemma update_category_replace_frame_witness :
  let db' := (run (update_category 1 {| CategoryCreate.name := "Stationery" |}
                     (Some [1])) db_two_categories).1 in
  categories db' !! 1 = Some {| Category.name := "Stationery" |}
  ∧ items db' = items db_two_categories
  ∧ (∀ k, k ≠ 1 → categories db' !! k = categories db_two_categories !! k)
  ∧ (∀ k, k ≠ 1 → items_of db' k = items_of db_two_categories k)
  ∧ CategoryResponse.id
      (category_response db' 1 {| Category.name := "Stationery" |}) = 1
  ∧ CategoryResponse.name
      (category_response db' 1 {| Category.name := "Stationery" |}) = "Stationery".
Proof.
  apply (update_category_replace_frame db_two_categories 1
           {| CategoryCreate.name := "Stationery" |} [1]).
  by vm_compute.
Defined.

(** *** Listings *)

Lemma unique_entities_NoDup {A} (rows : list (Z * A)) :
  NoDup (unique_entities rows).*1.
Proof.
  induction rows as [|row rows IH]; [apply NoDup_nil_2|]. simpl.
  apply NoDup_cons. split.
  - intros (r & Hr & [Hne _]%list_elem_of_filter)%list_elem_of_fmap. by apply Hne.
  - apply (sublist_NoDup _ (unique_entities rows).*1); [done|].
    apply fmap_sublist, sublist_filter.
Qed.

Lemma item_response_ids db (rows : list (Z * Item.t)) :
  ItemResponse.id <$> ((λ '(i, it), item_response db i it) <$> rows) = rows.*1.
Proof. rewrite <-list_fmap_compose. apply list_fmap_ext. by intros ? [??] _. Qed.

Lemma filter_items_ids db categories min_price max_price rs :
  (run (filter_items categories min_price max_price) db).2 = Ok rs →
  ItemResponse.id <$> rs
  = (filter_query categories (default 0%float min_price)
       (default infinity max_price) db).*1.
Proof.
  rewrite filter_items_run. simpl.
  destruct (filter_query _ _ _ _) as [|row rows] eqn:E; [done|].
  intros [= <-]. apply (item_response_ids db (row :: rows)).
Qed.

(** X15: [filter_items] never changes the database, and a list it returns
    holds no item twice, also when an item is in several of the named
    categories; every id it returns is the id of a stored item. *)
Theorem filter_items_distinct db categories min_price max_price :
  (run (filter_items categories min_price max_price) db).1 = db
  ∧ ∀ rs, (run (filter_items categories min_price max_price) db).2 = Ok rs →
          NoDup (ItemResponse.id <$> rs)
          ∧ ∀ i, i ∈ ItemResponse.id <$> rs → is_Some (items db !! i).
Proof.
  split; [apply filter_items_pure|]. intros rs Hrs.
  rewrite (filter_items_ids _ _ _ _ _ Hrs). split; [apply unique_entities_NoDup|].
  intros i ([i' it] & -> & Hin)%list_elem_of_fmap.
  apply filter_query_elem in Hin as [Hit _]. by eexists.
Qed.



(** X17: after [delete_item] the item is gone for every route: no
    [filter_items] returns it, no category of [get_categories] lists it, and
    [update_item] and [add_item_to_category] on its id answer 404. *)
Theorem deleted_item_is_gone db item_id it :
  items db !! item_id = Some it →
  let db' := (run (delete_item item_id) db).1 in
  (∀ categories min_price max_price rs,
     (run (filter_items categories min_price max_price) db').2 = Ok rs →
     item_id ∉ ItemResponse.id <$> rs)
  ∧ (∀ rs r, (run get_categories db').2 = Ok rs → r ∈ rs →
             item_id ∉ ItemResponse.id <$> CategoryResponse.items r)
  ∧ (∀ item, run (update_item item_id item) db' = (db', HTTPException 404))
  ∧ (∀ category_id,
       run (add_item_to_category category_id item_id) db' = (db', HTTPException 404)).
Proof.
  intros Hit. simpl. rewrite delete_item_run, Hit. simpl.
  set (db' := set_item_category _ _).
  assert (items db' !! item_id = None) as Hgone by apply lookup_delete_eq.
  split_and!.
  - intros categories min_price max_price rs Hrs Hin.
    rewrite (filter_items_ids _ _ _ _ _ Hrs) in Hin.
    apply list_elem_of_fmap in Hin as ([i it'] & -> & Hin).
    apply filter_query_elem in Hin as [Hit' _]. simpl in *. congruence.
  - intros rs r [= <-] ([k c] & -> & _)%list_elem_of_fmap.
    rewrite category_response_ids, elem_of_items_of_ids.
    intros [_ [? ?]]. congruence.
  - intros item. by apply update_item_missing.
  - intros category_id. apply add_item_to_category_not_found. by right.
Qed.

Lemma deleted_item_is_gone_witness :
  let db' := (run (delete_item 1) db_office).1 in
  (∀ categories min_price max_price rs,
     (run (filter_items categories min_price max_price) db').2 = Ok rs →
     1 ∉ ItemResponse.id <$> rs)
  ∧ (∀ rs r, (run get_categories db').2 = Ok rs → r ∈ rs →
             1 ∉ ItemResponse.id <$> CategoryResponse.items r)
  ∧ (∀ item, run (update_item 1 item) db' = (db', HTTPException 404))
  ∧ (∀ category_id,
       run (add_item_to_category category_id 1) db' = (db', HTTPException 404)).
Proof. apply (deleted_item_is_gone db_office 1 pen). reflexivity. Defined.

(** X18: [update_item] is idempotent: repeating a successful request gives
    the same database and the same response. *)
Theorem update_item_idempotent db item_id item db' r :
  run (update_item item_id item) db = (db', Ok r) →
  run (update_item item_id item) db' = (db', Ok r).
Proof.
  intros Hrun. destruct (items db !! item_id) as [it|] eqn:Hit.
  - rewrite (update_item_found _ _ _ _ Hit) in Hrun. injection Hrun as <- <-.
    rewrite (update_item_found _ _ _ (item_row item)) by apply lookup_insert_eq.
    unfold set_items. simpl. by rewrite insert_insert_eq.
  - by rewrite (update_item_missing _ _ _ Hit) in Hrun.
Qed.

Lemma update_item_idempotent_witness :
  let item := {| ItemCreate.name := "Pencil";
                 ItemCreate.description := Some "HB";
                 ItemCreate.price := 2%float |} in
  let db' := set_items <[1 := item_row item]> db_office in
  run (update_item 1 item) db' = (db', Ok (item_response db' 1 (item_row item))).
Proof.
  intros item db'. apply (update_item_idempotent db_office 1 item). by vm_compute.
Defined.

(** X19: in a database whose join table holds no row twice, no category
    response lists an item twice; if moreover the category names are
    pairwise different, no item response lists a category name twice. *)
Theorem responses_without_repetition db :
  NoDup (item_category db) →
  (∀ k c, NoDup (ItemResponse.id <$> CategoryResponse.items (category_response db k c)))
  ∧ (unique_category_names db →
     ∀ i it, NoDup (ItemResponse.categories (item_response db i it))).
Proof.
  intros Hnd.
  assert (∀ k, NoDup (items_of db k)) as Hitems.
  { intros k. unfold items_of.
    induction Hnd as [|[i c] rows Hnin Hnd IH]; [apply NoDup_nil_2|]. simpl.
    case_bool_decide; [|done]. destruct (items db !! i) as [it|] eqn:E; [|done].
    simpl. apply NoDup_cons. split; [|done].
    intros ([i' c'] & Hin & Hrow)%list_elem_of_omap.
    case_bool_decide; [|done]. destruct (items db !! i'); simplify_eq/=. done. }
  assert (∀ i, NoDup (categories_of db i)) as Hcats.
  { intros j. unfold categories_of.
    induction Hnd as [|[i c] rows Hnin Hnd IH]; [apply NoDup_nil_2|]. simpl.
    case_bool_decide; [|done]. destruct (categories db !! c) as [cat|] eqn:E; [|done].
    simpl. apply NoDup_cons. split; [|done].
    intros ([i' c'] & Hin & Hrow)%list_elem_of_omap.
    case_bool_decide; [|done]. destruct (categories db !! c'); simplify_eq/=. done. }
  split.
  - intros k c. rewrite category_response_ids.
    apply NoDup_fmap_2_strong; [|done].
    intros [i it] [i' it'] [_ Hi]%elem_of_items_of [_ Hi']%elem_of_items_of.
    simpl. intros <-. congruence.
  - intros Huniq i it. simpl. apply NoDup_fmap_2_strong; [|done].
    intros [k c] [k' c'] [_ Hk]%elem_of_categories_of [_ Hk']%elem_of_categories_of.
    simpl. intros Hn. assert (k = k') as <- by by eapply Huniq. congruence.
Qed.

Lemma db_shelved_NoDup : NoDup (item_category db_shelved).
Proof.
  simpl. apply NoDup_cons. split; [|apply NoDup_singleton].
  by intros [=]%list_elem_of_singleton.
Qed.

Lemma responses_without_repetition_witness :
  (∀ k c, NoDup (ItemResponse.id
                   <$> CategoryResponse.items (category_response db_shelved k c)))
  ∧ (∀ i it, NoDup (ItemResponse.categories (item_response db_shelved i it)))
  ∧ ItemResponse.id
      <$> CategoryResponse.items
            (category_response db_shelved 1 {| Category.name := "Office" |}) = [1]
  ∧ ItemResponse.categories (item_response db_shelved 1 pen) = ["Office"; "Books"].
Proof.
  destruct (responses_without_repetition db_shelved db_shelved_NoDup)
    as [Hitems Hnames].
  split_and!; [exact Hitems| |reflexivity|reflexivity].
  apply Hnames. exact db_two_categories_unique.
Defined.
